(** * aws_icons: the icon indexer and the ranked icon search

    A shallow embedding of
    - [src/app/api/search-icons/route.ts] (the live-filesystem route and,
      after the separator, the variant that loads [app/icons.json]), and
    - [src/scripts/generate-icons-json.js] (the snapshot generator),
    together with the JavaScript and Node built-ins they call. *)

From Stdlib Require Import List ZArith NArith Lia Bool String Ascii.
From Stdlib Require Import Sorting.Sorted Sorting.Permutation.
Import ListNotations.

Local Open Scope Z_scope.

(** ** JavaScript strings

    A JavaScript string is a sequence of UTF-16 code units; every built-in
    used by the sources works code unit by code unit, except
    [toLowerCase] and [localeCompare], whose Unicode tables are not part of
    the repository and are taken as parameters further down. *)
Module JS.

Definition jsstring := list N.

(** An ASCII literal as a JavaScript string. *)
Definition lit (s : string) : jsstring :=
  map N_of_ascii (list_ascii_of_string s).

(** [a === b] on strings. *)
Fixpoint eqb (a b : jsstring) : bool :=
  match a, b with
  | [], [] => true
  | c :: a', d :: b' => N.eqb c d && eqb a' b'
  | _, _ => false
  end.

(** [s.startsWith(q)] *)
Fixpoint startsWith (s q : jsstring) {struct q} : bool :=
  match q, s with
  | [], _ => true
  | c :: q', d :: s' => N.eqb c d && startsWith s' q'
  | _ :: _, [] => false
  end.

(** [s.includes(q)]: [q] occurs at some position of [s]. *)
Fixpoint includes (s q : jsstring) : bool :=
  startsWith s q ||
  match s with
  | [] => false
  | _ :: s' => includes s' q
  end.

(** [s.slice(a, b)] for non-negative indices. *)
Definition slice (s : jsstring) (a b : nat) : jsstring :=
  firstn (b - a) (skipn a s).

(** [s.charCodeAt(i)] for an index inside the string. *)
Definition charCodeAt (s : jsstring) (i : nat) : N := nth i s 0%N.

(** [s.split(sep)] for a separator of one code unit: the first token and
    the tokens after it.  The empty string splits into one empty token. *)
Fixpoint split_aux (sep : N) (s : jsstring) : jsstring * list jsstring :=
  match s with
  | [] => ([], [])
  | c :: s' =>
      let (t, ts) := split_aux sep s' in
      if N.eqb c sep then ([], t :: ts) else (c :: t, ts)
  end.

Definition split (sep : N) (s : jsstring) : list jsstring :=
  let (t, ts) := split_aux sep s in t :: ts.

(** ECMAScript WhiteSpace and LineTerminator code units, as removed by
    [String.prototype.trim]. *)
Definition isWhiteSpace (c : N) : bool :=
  (N.leb 9 c && N.leb c 13) || N.eqb c 32 || N.eqb c 160 || N.eqb c 5760
  || (N.leb 8192 c && N.leb c 8202) || N.eqb c 8232 || N.eqb c 8233
  || N.eqb c 8239 || N.eqb c 8287 || N.eqb c 12288 || N.eqb c 65279.

Fixpoint trimStart (s : jsstring) : jsstring :=
  match s with
  | [] => []
  | c :: s' => if isWhiteSpace c then trimStart s' else s
  end.

Definition trim (s : jsstring) : jsstring :=
  rev (trimStart (rev (trimStart s))).

(** [s.replace(/\\/g, "/")] *)
Definition replaceBackslashes (s : jsstring) : jsstring :=
  map (fun c => if N.eqb c 92 then 47%N else c) s.

(** The code-unit order of [<] on strings, which [Array.prototype.sort]
    uses when it is called without a comparator. *)
Fixpoint compareCodeUnits (a b : jsstring) : comparison :=
  match a, b with
  | [], [] => Eq
  | [], _ :: _ => Lt
  | _ :: _, [] => Gt
  | c :: a', d :: b' =>
      match N.compare c d with
      | Eq => compareCodeUnits a' b'
      | r => r
      end
  end.

Definition defaultCompare (a b : jsstring) : Z :=
  match compareCodeUnits a b with
  | Lt => -1
  | Eq => 0
  | Gt => 1
  end.

(** [toLowerCase] restricted to the ASCII letters; it instantiates the
    lower-casing parameter on concrete inputs. *)
Definition asciiLower (s : jsstring) : jsstring :=
  map (fun c => if N.leb 65 c && N.leb c 90 then (c + 32)%N else c) s.

Section Arrays.
Context {A : Type}.

(** [Array.prototype.sort(cmp)].  ECMAScript requires the sort to be stable
    and, for a consistent comparator, the result to be ordered by it; the
    stable ordered permutation is unique, so the insertion sort below stands
    for whatever algorithm the engine runs.  [cmp a b < 0] places [a]
    before [b]. *)
Fixpoint insert (cmp : A -> A -> Z) (x : A) (l : list A) : list A :=
  match l with
  | [] => [x]
  | y :: l' => if cmp x y <? 0 then x :: l else y :: insert cmp x l'
  end.

Definition sort (cmp : A -> A -> Z) (l : list A) : list A :=
  fold_left (fun acc x => insert cmp x acc) l [].

(** [[...new Set(l)]]: the distinct elements in order of first occurrence. *)
Definition setAdd (eq : A -> A -> bool) (acc : list A) (x : A) : list A :=
  if existsb (eq x) acc then acc else acc ++ [x].

Definition newSet (eq : A -> A -> bool) (l : list A) : list A :=
  fold_left (setAdd eq) l [].

End Arrays.

End JS.

(** ** Node's [path] module (POSIX flavour)

    [path.parse], [path.extname] and [path.dirname] scan the string from its
    last code unit towards the first one; the three loops are transcribed
    with the variables Node's implementation uses. *)
Module NodePath.
Import JS.

Definition CHAR_FORWARD_SLASH : N := 47.
Definition CHAR_DOT : N := 46.

(** The variables of the scanning loop of [parse] and [extname]. *)
Record scan := mkScan {
  startDot : Z;
  startPart : Z;
  end_ : Z;
  matchedSlash : bool;
  preDotState : Z
}.

Definition scan0 : scan := mkScan (-1) 0 (-1) true 0.

(** One turn of the loop on a code unit that is not a separator. *)
Definition seeChar (code : N) (i : Z) (st : scan) : scan :=
  let st1 :=
    if end_ st =? -1
    then mkScan (startDot st) (startPart st) (i + 1) false (preDotState st)
    else st in
  if N.eqb code CHAR_DOT then
    if startDot st1 =? -1
    then mkScan i (startPart st1) (end_ st1) (matchedSlash st1) (preDotState st1)
    else if negb (preDotState st1 =? 1)
    then mkScan (startDot st1) (startPart st1) (end_ st1) (matchedSlash st1) 1
    else st1
  else if negb (startDot st1 =? -1)
  then mkScan (startDot st1) (startPart st1) (end_ st1) (matchedSlash st1) (-1)
  else st1.

(** [for (i = n - 1; i >= start; --i)] with its [break] and [continue]. *)
Fixpoint scanLoop (p : jsstring) (start n : nat) (st : scan) : scan :=
  match n with
  | O => st
  | S i =>
      if (i <? start)%nat then st
      else
        let code := charCodeAt p i in
        if N.eqb code CHAR_FORWARD_SLASH then
          if negb (matchedSlash st)
          then mkScan (startDot st) (Z.of_nat i + 1) (end_ st)
                      (matchedSlash st) (preDotState st)
          else scanLoop p start i st
        else scanLoop p start i (seeChar code (Z.of_nat i) st)
  end.

(** The test that decides there is no extension. *)
Definition noExtension (st : scan) : bool :=
  (startDot st =? -1) || (preDotState st =? 0)
  || ((preDotState st =? 1) && (startDot st =? end_ st - 1)
      && (startDot st =? startPart st + 1)).

Record parsed := mkParsed {
  root : jsstring;
  dir : jsstring;
  base : jsstring;
  ext : jsstring;
  name : jsstring
}.

Definition parse (p : jsstring) : parsed :=
  match p with
  | [] => mkParsed [] [] [] [] []
  | c0 :: _ =>
      let isAbsolute := N.eqb c0 CHAR_FORWARD_SLASH in
      let start := if isAbsolute then 1%nat else 0%nat in
      let st := scanLoop p start (List.length p) scan0 in
      let root_ := if isAbsolute then [CHAR_FORWARD_SLASH] else [] in
      let dir_ :=
        if 0 <? startPart st then slice p 0 (Z.to_nat (startPart st - 1))
        else if isAbsolute then [CHAR_FORWARD_SLASH] else [] in
      if negb (end_ st =? -1) then
        let start' :=
          if (startPart st =? 0) && isAbsolute then 1%nat
          else Z.to_nat (startPart st) in
        if noExtension st then
          let b := slice p start' (Z.to_nat (end_ st)) in
          mkParsed root_ dir_ b [] b
        else
          mkParsed root_ dir_
            (slice p start' (Z.to_nat (end_ st)))
            (slice p (Z.to_nat (startDot st)) (Z.to_nat (end_ st)))
            (slice p start' (Z.to_nat (startDot st)))
      else mkParsed root_ dir_ [] [] []
  end.

Definition extname (p : jsstring) : jsstring :=
  let st := scanLoop p 0 (List.length p) scan0 in
  if (end_ st =? -1) || noExtension st then []
  else slice p (Z.to_nat (startDot st)) (Z.to_nat (end_ st)).

(** The loop of [dirname]: [(end, matchedSlash)], down to index 1. *)
Fixpoint dirnameLoop (p : jsstring) (n : nat) (matched : bool) : Z :=
  match n with
  | O => -1
  | S i =>
      if (i <? 1)%nat then -1
      else if N.eqb (charCodeAt p i) CHAR_FORWARD_SLASH then
        if negb matched then Z.of_nat i else dirnameLoop p i matched
      else dirnameLoop p i false
  end.

Definition dirname (p : jsstring) : jsstring :=
  match p with
  | [] => [CHAR_DOT]
  | c0 :: _ =>
      let hasRoot := N.eqb c0 CHAR_FORWARD_SLASH in
      let e := dirnameLoop p (List.length p) true in
      if e =? -1 then (if hasRoot then [CHAR_FORWARD_SLASH] else [CHAR_DOT])
      else if hasRoot && (e =? 1)
      then [CHAR_FORWARD_SLASH; CHAR_FORWARD_SLASH]
      else slice p 0 (Z.to_nat e)
  end.

End NodePath.

(** ** The data model ([IconFile], route.ts lines 5-13) *)

Record IconFile := mkIconFile {
  name : JS.jsstring;
  path : JS.jsstring;
  relativePath : JS.jsstring;
  directory : JS.jsstring;
  size : option Z;
  lastModified : option Z;
  depth : Z
}.

(** What [searchIconFiles] resolves to. *)
Record SearchOutcome := mkOutcome {
  icons : list IconFile;
  directories : list JS.jsstring
}.

Definition emptyOutcome : SearchOutcome := mkOutcome [] [].

(** ** The search pipeline of route.ts

    [String.prototype.toLowerCase] and [String.prototype.localeCompare]
    depend on Unicode case and collation tables that are outside the
    repository; the pipeline is written over them. *)
Module Search.
Import JS.

Section Pipeline.
Variable toLowerCase : jsstring -> jsstring.
Variable localeCompare : jsstring -> jsstring -> Z.

(** [searchTargets] of the filter callback (lines 147-165). *)
Definition searchTargets (file : IconFile) : list jsstring :=
  let fileName := toLowerCase (name file) in
  let fileNameWithoutExt := NodePath.name (NodePath.parse fileName) in
  let directoryName := toLowerCase (directory file) in
  let relativePath_ := toLowerCase (relativePath file) in
  [fileName; fileNameWithoutExt; directoryName; relativePath_]
    ++ split 45 fileNameWithoutExt
    ++ split 47 directoryName
    ++ split 47 relativePath_.

(** The filter callback (line 167):
    [searchTargets.some((target) => target.includes(searchTermLower))]. *)
Definition matchesSearch (searchTermLower : jsstring) (file : IconFile) : bool :=
  existsb (fun target => includes target searchTermLower) (searchTargets file).

(** [getRelevanceScore] (lines 178-200): [score] starts at 0 and is
    updated by four conditionals and the depth penalty. *)
Definition getRelevanceScore (searchTermLower : jsstring) (file : IconFile) : Z :=
  let score := 0 in
  let fileName := toLowerCase (name file) in
  let fileNameWithoutExt := NodePath.name (NodePath.parse fileName) in
  let directory_ := toLowerCase (directory file) in
  let score :=
    if eqb fileName searchTermLower || eqb fileNameWithoutExt searchTermLower
    then score + 100 else score in
  let score :=
    if startsWith fileName searchTermLower
       || startsWith fileNameWithoutExt searchTermLower
    then score + 50 else score in
  let score := if includes directory_ searchTermLower then score + 25 else score in
  let score := if includes fileName searchTermLower then score + 10 else score in
  let score := score - depth file in
  score.

(** The comparator of the relevance sort (lines 171-210). *)
Definition compareRelevance (searchTermLower : jsstring) (a b : IconFile) : Z :=
  let aName := toLowerCase (name a) in
  let bName := toLowerCase (name b) in
  let aDir := toLowerCase (directory a) in
  let bDir := toLowerCase (directory b) in
  let scoreA := getRelevanceScore searchTermLower a in
  let scoreB := getRelevanceScore searchTermLower b in
  if negb (scoreA =? scoreB) then scoreB - scoreA
  else if negb (eqb aDir bDir) then localeCompare aDir bDir
  else localeCompare aName bName.

(** The comparator of the empty-query sort (lines 133-139). *)
Definition compareDirectoryName (a b : IconFile) : Z :=
  if negb (eqb (directory a) (directory b))
  then localeCompare (directory a) (directory b)
  else localeCompare (name a) (name b).

(** [if (filterDir)]: [undefined] and the empty string are falsy. *)
Definition truthy (filterDir : option jsstring) : bool :=
  match filterDir with
  | Some (_ :: _) => true
  | _ => false
  end.

(** Lines 121-125. *)
Definition applyDirectoryFilter (allFiles : list IconFile)
    (filterDir : option jsstring) : list IconFile :=
  match filterDir with
  | Some d =>
      if truthy filterDir
      then filter (fun file => eqb (directory file) d) allFiles
      else allFiles
  | None => allFiles
  end.

(** Line 128. *)
Definition uniqueDirectories (allFiles : list IconFile) : list jsstring :=
  sort defaultCompare (newSet eqb (map directory allFiles)).

(** Lines 121-215 of [searchIconFiles]: everything after the snapshot
    [allFiles] has been obtained. *)
Definition searchFiles (allFiles : list IconFile) (searchTerm : jsstring)
    (filterDir : option jsstring) : SearchOutcome :=
  let filteredFiles := applyDirectoryFilter allFiles filterDir in
  let directories_ := uniqueDirectories allFiles in
  match trim searchTerm with
  | [] => mkOutcome (sort compareDirectoryName filteredFiles) directories_
  | _ :: _ =>
      let searchTermLower := toLowerCase searchTerm in
      let matchingFiles := filter (matchesSearch searchTermLower) filteredFiles in
      let sortedFiles := sort (compareRelevance searchTermLower) matchingFiles in
      mkOutcome sortedFiles directories_
  end.

(** The comparator of the relevance sort in the [icons.json] variant: the
    ties are broken on the directory and name as stored, not lower-cased. *)
Definition compareRelevanceJson (searchTermLower : jsstring) (a b : IconFile) : Z :=
  let scoreA := getRelevanceScore searchTermLower a in
  let scoreB := getRelevanceScore searchTermLower b in
  if negb (scoreA =? scoreB) then scoreB - scoreA
  else if negb (eqb (directory a) (directory b))
  then localeCompare (directory a) (directory b)
  else localeCompare (name a) (name b).

(** The same lines in the [icons.json] variant. *)
Definition searchFilesJson (allFiles : list IconFile) (searchTerm : jsstring)
    (filterDir : option jsstring) : SearchOutcome :=
  let filteredFiles := applyDirectoryFilter allFiles filterDir in
  let directories_ := uniqueDirectories allFiles in
  match trim searchTerm with
  | [] => mkOutcome (sort compareDirectoryName filteredFiles) directories_
  | _ :: _ =>
      let searchTermLower := toLowerCase searchTerm in
      let matchingFiles := filter (matchesSearch searchTermLower) filteredFiles in
      let sortedFiles := sort (compareRelevanceJson searchTermLower) matchingFiles in
      mkOutcome sortedFiles directories_
  end.

End Pipeline.
End Search.

(** ** Exceptions and the local [files] array

    A computation either returns or throws.  The traversals push onto a
    local array while they run inside [try] blocks, so their loops are
    written in a monad that threads the array and keeps it when an exception
    is caught. *)
Module Eff.

Inductive error := ENOENT | EACCES | ENOTDIR | SyntaxError | TypeError.

Inductive outcome (A : Type) :=
| Returns (a : A)
| Throws (e : error).
Arguments Returns {A} a.
Arguments Throws {A} e.

Definition eff (S A : Type) : Type := S -> outcome A * S.

Definition ret {S A} (a : A) : eff S A := fun s => (Returns a, s).

Definition bind {S A B} (c : eff S A) (k : A -> eff S B) : eff S B :=
  fun s =>
    match c s with
    | (Returns a, s') => k a s'
    | (Throws e, s') => (Throws e, s')
    end.

(** [await] of a promise that resolved or rejected. *)
Definition await {S A} (o : outcome A) : eff S A := fun s => (o, s).

(** [try { c } catch (error) { h error }] *)
Definition tryCatch {S A} (c : eff S A) (h : error -> eff S A) : eff S A :=
  fun s =>
    match c s with
    | (Throws e, s') => h e s'
    | r => r
    end.

(** [files.push(...xs)] *)
Definition push {A} (xs : list A) : eff (list A) unit :=
  fun files => (Returns tt, files ++ xs).

(** [for (const x of l) { body x }]; a [continue] is a body that returns. *)
Definition forOf {S A} (body : A -> eff S unit) : list A -> eff S unit :=
  fix loop (l : list A) : eff S unit :=
    match l with
    | [] => ret tt
    | x :: l' => fun s =>
        match body x s with
        | (Returns _, s') => loop l' s'
        | (Throws e, s') => (Throws e, s')
        end
    end.

(** A function body that declares [const files = []], runs [c] and ends
    with [return files]. *)
Definition returningFiles {A} (c : eff (list A) unit) : outcome (list A) :=
  match c [] with
  | (Returns _, files) => Returns files
  | (Throws e, _) => Throws e
  end.

End Eff.

Declare Scope eff_scope.
Delimit Scope eff_scope with eff.
Notation "'let!' x ':=' c 'in' k" := (Eff.bind c (fun x => k))
  (at level 10, x name, c at level 100, k at level 200) : eff_scope.
Notation "c1 ';;' c2" := (Eff.bind c1 (fun _ => c2))
  (at level 100, right associativity) : eff_scope.

(** ** The directory tree the traversals read

    [fs.readdir(dir, { withFileTypes: true })] lists entries by base name;
    it and [fs.stat] may reject.  [relDir] below is the path of the
    directory being listed relative to [baseDir] (empty at the root), so
    that [path.relative(baseDir, path.join(dirPath, entry.name))] is
    [relDir], a separator and the entry's name. *)
Module Fs.
Import JS Eff.

Record Stats := mkStats { st_size : Z; st_mtime : Z }.

#[warnings="-register-all"]
Inductive dirent :=
| FileEnt (entryName : jsstring) (stat : outcome Stats)
| DirEnt (entryName : jsstring) (listing : outcome (list dirent))
| OtherEnt (entryName : jsstring) (stat : outcome Stats).

(** Induction over a tree, with the hypothesis available for every entry of
    a listing. *)
Section DirentInduction.
Variable P : dirent -> Prop.
Hypothesis P_file : forall n stat, P (FileEnt n stat).
Hypothesis P_other : forall n stat, P (OtherEnt n stat).
Hypothesis P_unreadable : forall n e, P (DirEnt n (Throws e)).
Hypothesis P_dir :
  forall n entries, Forall P entries -> P (DirEnt n (Returns entries)).

Fixpoint dirent_tree_ind (entry : dirent) : P entry :=
  match entry with
  | FileEnt n stat => P_file n stat
  | OtherEnt n stat => P_other n stat
  | DirEnt n (Throws e) => P_unreadable n e
  | DirEnt n (Returns entries) =>
      P_dir n entries
        ((fix all (l : list dirent) : Forall P l :=
            match l with
            | [] => Forall_nil P
            | x :: l' => Forall_cons x (dirent_tree_ind x) (all l')
            end) entries)
  end.

End DirentInduction.

(** A root directory as the route sees it: the result of [fs.access] and
    of [fs.readdir] on it. *)
Record rootdir := mkRoot {
  access : outcome unit;
  readdir : outcome (list dirent)
}.

Definition relativeOf (relDir entryName : jsstring) : jsstring :=
  match relDir with
  | [] => entryName
  | _ :: _ => relDir ++ [NodePath.CHAR_FORWARD_SLASH] ++ entryName
  end.

Definition supportedFormats : list jsstring :=
  map lit [".svg"; ".png"; ".jpg"; ".jpeg"; ".gif"; ".webp"; ".ico"]%string.

End Fs.

(** ** The indexer of route.ts: [getAllFilesRecursively] (lines 30-90) *)
Module Route.
Import JS Eff Fs.
Local Open Scope eff_scope.

Section Indexer.
Variable toLowerCase : jsstring -> jsstring.
Variable maxDepth : Z.

(** [relativePath.replace(/^public\//, "/")] (line 67). *)
Definition publicUrlPath (relativePath_ : jsstring) : jsstring :=
  if startsWith relativePath_ (lit "public/")
  then NodePath.CHAR_FORWARD_SLASH :: skipn 7 relativePath_
  else relativePath_.

(** The record pushed at lines 69-78. *)
Definition fileRecord (relDir : jsstring) (currentDepth : Z)
    (entryName : jsstring) (stats : Stats) : IconFile :=
  let relativePath_ := relativeOf relDir entryName in
  let directory_ := NodePath.dirname relativePath_ in
  mkIconFile
    entryName
    (replaceBackslashes (publicUrlPath relativePath_))
    (replaceBackslashes relativePath_)
    (if eqb directory_ (lit ".") then lit "root"
     else replaceBackslashes directory_)
    (Some (st_size stats))
    (Some (st_mtime stats))
    currentDepth.

(** The body of the function once [files] is declared (lines 38-89), over
    the visitor that handles one entry of the listing. *)
Definition getAllFilesWith
    (visit : jsstring -> Z -> dirent -> eff (list IconFile) unit)
    (listing : outcome (list dirent)) (relDir : jsstring) (currentDepth : Z)
    : outcome (list IconFile) :=
  if currentDepth >? maxDepth then Returns []
  else
    returningFiles
      (tryCatch
         (fun files =>
            match listing with
            | Returns entries => forOf (visit relDir currentDepth) entries files
            | Throws e => (Throws e, files)
            end)
         (fun _ => ret tt)).

(** One turn of the [for] loop (lines 46-84) on [entry], found in the
    directory at [relDir], [currentDepth] levels below the root. *)
Fixpoint visitEntry (relDir : jsstring) (currentDepth : Z) (entry : dirent)
    {struct entry} : eff (list IconFile) unit :=
  match entry with
  | DirEnt entryName listing =>
      if startsWith entryName (lit ".") || eqb entryName (lit "node_modules")
      then ret tt
      else
        let! subFiles :=
          await (getAllFilesWith visitEntry listing
                   (relativeOf relDir entryName) (currentDepth + 1)) in
        push subFiles
  | FileEnt entryName stat =>
      let extension := toLowerCase (NodePath.extname entryName) in
      if existsb (eqb extension) supportedFormats then
        tryCatch
          (let! stats := await stat in
           push [fileRecord relDir currentDepth entryName stats])
          (fun _ => ret tt)
      else ret tt
  | OtherEnt _ _ => ret tt
  end.

Definition getAllFilesRecursively (listing : outcome (list dirent))
    (relDir : jsstring) (currentDepth : Z) : outcome (list IconFile) :=
  getAllFilesWith visitEntry listing relDir currentDepth.

End Indexer.
End Route.

(** ** The indexer of generate-icons-json.js: [getAllIconFiles] (lines 8-40) *)
Module Script.
Import JS Eff Fs.
Local Open Scope eff_scope.

Section Indexer.
Variable toLowerCase : jsstring -> jsstring.
Variable maxDepth : Z.

(** The record pushed at lines 27-35; [relativePath_] is already
    normalized to forward slashes (line 17). *)
Definition fileRecord (relativePath_ : jsstring) (depth_ : Z)
    (entryName : jsstring) (stats : Stats) : IconFile :=
  mkIconFile
    entryName
    (lit "/icons/" ++ relativePath_)
    relativePath_
    (match replaceBackslashes (NodePath.dirname relativePath_) with
     | [] => lit "root"
     | d => d
     end)
    (Some (st_size stats))
    (Some (st_mtime stats))
    depth_.

(** The body of the function (lines 9-39): nothing is caught. *)
Definition getAllIconFilesWith
    (visit : jsstring -> Z -> dirent -> eff (list IconFile) unit)
    (listing : outcome (list dirent)) (relDir : jsstring) (depth_ : Z)
    : outcome (list IconFile) :=
  if depth_ >? maxDepth then Returns []
  else
    returningFiles
      (fun files =>
         match listing with
         | Returns entries => forOf (visit relDir depth_) entries files
         | Throws e => (Throws e, files)
         end).

(** The statements of the [else] branch (lines 22-35). *)
Definition visitFile (relDir : jsstring) (depth_ : Z) (entryName : jsstring)
    (stat : outcome Stats) : eff (list IconFile) unit :=
  let relativePath_ := replaceBackslashes (relativeOf relDir entryName) in
  let ext := toLowerCase (NodePath.extname entryName) in
  let valid := existsb (eqb ext) supportedFormats in
  if negb valid then ret tt
  else
    let! stats := await stat in
    push [fileRecord relativePath_ depth_ entryName stats].

(** One turn of the [for] loop (lines 15-37). *)
Fixpoint visitEntry (relDir : jsstring) (depth_ : Z) (entry : dirent)
    {struct entry} : eff (list IconFile) unit :=
  match entry with
  | DirEnt entryName listing =>
      let! subFiles :=
        await (getAllIconFilesWith visitEntry listing
                 (relativeOf relDir entryName) (depth_ + 1)) in
      push subFiles
  | FileEnt entryName stat => visitFile relDir depth_ entryName stat
  | OtherEnt entryName stat => visitFile relDir depth_ entryName stat
  end.

Definition getAllIconFiles (listing : outcome (list dirent))
    (relDir : jsstring) (depth_ : Z) : outcome (list IconFile) :=
  getAllIconFilesWith visitEntry listing relDir depth_.

End Indexer.
End Script.

(** ** [searchIconFiles], the entry point of the search *)
Module Entry.
Import JS Eff Fs.

Section EntryPoints.
Variable toLowerCase : jsstring -> jsstring.
Variable localeCompare : jsstring -> jsstring -> Z.

(** A computation of an [async] function without local state. *)
Definition runAsync {A} (c : eff unit A) : outcome A := fst (c tt).

(** route.ts lines 98-220.  [fsys] gives, for the [directory] argument,
    the state of [path.join(process.cwd(), directory)].  The inner [catch]
    returns from the function; [accessible] records which way the inner
    [try] ended. *)
Definition searchIconFiles (fsys : jsstring -> rootdir)
    (searchTerm directory_ : jsstring) (filterDir : option jsstring)
    : outcome SearchOutcome :=
  runAsync
    (tryCatch
       (let iconsDirectory := fsys directory_ in
        let! accessible :=
          tryCatch
            (let! _ := await (access iconsDirectory) in ret true)
            (fun _ => ret false) in
        if negb accessible then ret emptyOutcome
        else
          let! allFiles :=
            await (Route.getAllFilesRecursively toLowerCase 10
                     (readdir iconsDirectory) [] 0) in
          ret (Search.searchFiles toLowerCase localeCompare
                 allFiles searchTerm filterDir))%eff
       (fun _ => ret emptyOutcome)).

(** The variant that loads the snapshot (second half of route.ts):
    [fs.readFile] may reject and [JSON.parse] may throw. *)
Definition searchIconFilesJson (readFile : jsstring -> outcome jsstring)
    (JSON_parse : jsstring -> outcome (list IconFile))
    (searchTerm jsonFile : jsstring) (filterDir : option jsstring)
    : outcome SearchOutcome :=
  runAsync
    (tryCatch
       (let! raw := await (readFile jsonFile) in
        let! allFiles := await (JSON_parse raw) in
        ret (Search.searchFilesJson toLowerCase localeCompare
               allFiles searchTerm filterDir))%eff
       (fun _ => ret emptyOutcome)).

End EntryPoints.
End Entry.

(** ** Inputs used to exercise the definitions *)
Module Samples.
Import JS Eff Fs.

Definition icon (n d p : string) (k : Z) : IconFile :=
  mkIconFile (lit n) (lit p) (lit p) (lit d) None None k.

(** The three records of the specification's scenario. *)
Definition lambdaRecords : list IconFile :=
  [ icon "aws-lambda-arch.png" "compute/diagrams"
         "compute/diagrams/aws-lambda-arch.png" 2;
    icon "lambda-function.svg" "compute" "compute/lambda-function.svg" 1;
    icon "lambda.svg" "root" "lambda.svg" 0 ].

Definition ec2 : IconFile := icon "ec2.svg" "root" "ec2.svg" 0.

(** An exact match that sits deep in the tree, beside a shallow prefix
    match. *)
Definition deepEc2 : IconFile := icon "ec2.svg" "archive" "archive/ec2.svg" 200.
Definition ec2Instance : IconFile :=
  icon "ec2-instance.svg" "root" "ec2-instance.svg" 0.

Definition someStats : outcome Stats := Returns (mkStats 512 1700000000).

(** One image directly under the root. *)
Definition flatTree : list dirent := [FileEnt (lit "a.svg") someStats].

(** An image inside a hidden directory. *)
Definition hiddenTree : list dirent :=
  [DirEnt (lit ".git") (Returns [FileEnt (lit "x.png") someStats])].

Definition mixedTree : list dirent :=
  [ FileEnt (lit "a.svg") someStats;
    DirEnt (lit ".git") (Returns [FileEnt (lit "x.png") someStats]);
    DirEnt (lit "compute")
      (Returns [ FileEnt (lit "l.SVG") someStats;
                 FileEnt (lit "bad.png") (Throws ENOENT);
                 DirEnt (lit "locked") (Throws EACCES);
                 DirEnt (lit "node_modules")
                   (Returns [FileEnt (lit "m.gif") someStats]) ]);
    FileEnt (lit "readme.md") someStats ].

(** The record the route builds for [flatTree]. *)
Definition flatRecord : IconFile :=
  mkIconFile (lit "a.svg") (lit "a.svg") (lit "a.svg") (lit "root")
    (Some 512) (Some 1700000000) 0.

(** The record the script builds for [hiddenTree]. *)
Definition hiddenRecord : IconFile :=
  mkIconFile (lit "x.png") (lit "/icons/.git/x.png") (lit ".git/x.png")
    (lit ".git") (Some 512) (Some 1700000000) 1.

(** A file system whose icons directory is missing. *)
Definition missingRoot (_ : jsstring) : rootdir :=
  mkRoot (Throws ENOENT) (Throws ENOENT).

Definition liveRoot (_ : jsstring) : rootdir :=
  mkRoot (Returns tt) (Returns mixedTree).

End Samples.

(** ** The vocabulary of the specification *)
Module Spec.
Import JS.

(** [t] occurs in [s] as a contiguous run of code units. *)
Definition substringOf (t s : jsstring) : Prop :=
  exists l r, s = l ++ t ++ r.

(** [q] is a prefix of [s]. *)
Definition prefixOf (q s : jsstring) : Prop :=
  exists r, s = q ++ r.

(** A bonus of [k] points that is granted or not. *)
Definition bonus (granted : bool) (k : Z) : Z := if granted then k else 0.

Section Vocabulary.
Variable toLowerCase : jsstring -> jsstring.
Variable localeCompare : jsstring -> jsstring -> Z.

Definition lowerName (file : IconFile) : jsstring := toLowerCase (name file).

Definition strippedName (file : IconFile) : jsstring :=
  NodePath.name (NodePath.parse (toLowerCase (name file))).

(** Step 5, first rule: the lower-cased filename or the extension-stripped
    filename equals the query. *)
Definition exactMatch (q : jsstring) (file : IconFile) : Prop :=
  lowerName file = q \/ strippedName file = q.

(** Step 5, second rule. *)
Definition prefixMatch (q : jsstring) (file : IconFile) : Prop :=
  prefixOf q (lowerName file) \/ prefixOf q (strippedName file).

(** Step 4: some derived target contains the query. *)
Definition matchesSomeTarget (q : jsstring) (file : IconFile) : Prop :=
  exists target,
    In target (Search.searchTargets toLowerCase file) /\ substringOf q target.

(** The simpler predicate: the query occurs in the lower-cased filename,
    directory or relative path. *)
Definition simpleMatch (q : jsstring) (file : IconFile) : bool :=
  includes (toLowerCase (name file)) q
  || includes (toLowerCase (directory file)) q
  || includes (toLowerCase (relativePath file)) q.

(** Step 6, primary key: [a] does not score below [b]. *)
Definition scoreOrdered (q : jsstring) (a b : IconFile) : Prop :=
  Search.getRelevanceScore toLowerCase q b
  <= Search.getRelevanceScore toLowerCase q a.

(** Step 1: the scoped set for a directory filter that is given. *)
Definition scopedSet (allFiles : list IconFile) (filterDir : option jsstring)
    : list IconFile :=
  match filterDir with
  | Some d => filter (fun file => eqb (directory file) d) allFiles
  | None => allFiles
  end.

(** A directory filter counts as given when it is a non-empty string. *)
Definition givenFilter (filterDir : option jsstring) : option jsstring :=
  match filterDir with
  | Some (c :: d) => Some (c :: d)
  | _ => None
  end.

(** The query is empty or consists of white space only. *)
Definition blankQuery (q : jsstring) : bool := forallb isWhiteSpace q.

(** Step 3: directory ascending, then name ascending, in the collation
    order. *)
Definition directoryThenName (a b : IconFile) : Prop :=
  localeCompare (directory a) (directory b) < 0
  \/ (directory a = directory b /\ localeCompare (name a) (name b) <= 0).

(** Step 2: the roster lists exactly the directories of the records, in
    strictly ascending code-unit order. *)
Definition isRoster (allFiles : list IconFile) (roster : list jsstring) : Prop :=
  (forall d, In d roster <-> exists file, In file allFiles /\ directory file = d)
  /\ NoDup roster
  /\ StronglySorted (fun a b => compareCodeUnits a b = Lt) roster.

End Vocabulary.

(** The number of path separators in a relative path. *)
Definition countSeparators (p : jsstring) : Z :=
  Z.of_nat (List.length (filter (N.eqb NodePath.CHAR_FORWARD_SLASH) p)).

End Spec.

(** ** Well-formed trees and the records a traversal can produce *)
Module Tree.
Import JS Eff Fs.

(** A base name as [readdir] reports it: not empty and free of both
    separator characters. *)
Definition validName (n : jsstring) : bool :=
  match n with
  | [] => false
  | _ :: _ => forallb (fun c => negb (N.eqb c 47) && negb (N.eqb c 92)) n
  end.

Fixpoint validEntry (entry : dirent) : bool :=
  match entry with
  | FileEnt n _ => validName n
  | OtherEnt n _ => validName n
  | DirEnt n listing =>
      validName n &&
      match listing with
      | Returns entries => forallb validEntry entries
      | Throws _ => true
      end
  end.

(** The directories route.ts refuses to enter (line 51). *)
Definition skipped (n : jsstring) : bool :=
  startsWith n (lit ".") || eqb n (lit "node_modules").

(** The relative path reached from [relDir] through the directories
    [segs], outermost first. *)
Definition extendRel (relDir : jsstring) (segs : list jsstring) : jsstring :=
  fold_left relativeOf segs relDir.

(** [f] is the record of a file named [n] found after descending from
    [relDir], at depth [d], through directories accepted by [okDir]. *)
Definition produced (recordOf : jsstring -> Z -> jsstring -> Stats -> IconFile)
    (okDir : jsstring -> bool) (maxDepth : Z) (relDir : jsstring) (d : Z)
    (f : IconFile) : Prop :=
  exists segs n stats,
    forallb okDir segs = true
    /\ validName n = true
    /\ d + Z.of_nat (List.length segs) <= maxDepth
    /\ f = recordOf (extendRel relDir segs) (d + Z.of_nat (List.length segs))
              n stats.

Definition routeDir (n : jsstring) : bool := validName n && negb (skipped n).

Definition scriptRecord (relDir : jsstring) (d : Z) (n : jsstring)
    (stats : Stats) : IconFile :=
  Script.fileRecord (replaceBackslashes (relativeOf relDir n)) d n stats.

(** The computation only appends to the array, and what it appends
    satisfies [Q]. *)
Definition grows {A B} (Q : A -> Prop) (c : eff (list A) B) : Prop :=
  forall s o s', c s = (o, s') -> exists new, s' = s ++ new /\ Forall Q new.

(** The computation returns from every state. *)
Definition noThrow {S B} (c : eff S B) : Prop :=
  forall s, exists b s', c s = (Returns b, s').

(** The depth of a directory given by its relative path. *)
Definition pathDepth (relDir : jsstring) : Z :=
  match relDir with
  | [] => 0
  | _ :: _ => 1 + Spec.countSeparators relDir
  end.

End Tree.

(** ** The order of the relevance sort *)
Module Rank.
Import JS.

Section Order.
Variable toLowerCase : jsstring -> jsstring.
Variable localeCompare : jsstring -> jsstring -> Z.

(** [a] may stand before [b] in a relevance sort that breaks ties on
    [normalize]d directories and names: [a] scores higher, or the scores are
    equal and [a] is not after [b] by directory, then by name. *)
Definition rankedBefore (normalize : jsstring -> jsstring) (q : jsstring)
    (a b : IconFile) : Prop :=
  Search.getRelevanceScore toLowerCase q b
    < Search.getRelevanceScore toLowerCase q a
  \/ (Search.getRelevanceScore toLowerCase q a
        = Search.getRelevanceScore toLowerCase q b
      /\ (localeCompare (normalize (directory a)) (normalize (directory b)) < 0
          \/ (normalize (directory a) = normalize (directory b)
              /\ localeCompare (normalize (name a)) (normalize (name b)) <= 0))).

(** The record with its name and directory normalized, as the comparator
    of the live route looks at it when scores tie. *)
Definition normalized (normalize : jsstring -> jsstring) (f : IconFile)
    : IconFile :=
  mkIconFile (normalize (name f)) (path f) (relativePath f)
    (normalize (directory f)) (size f) (lastModified f) (depth f).

(** The comparator of the relevance sort, over the normalization applied
    to directories and names when scores tie. *)
Definition compareRanked (normalize : jsstring -> jsstring) (q : jsstring)
    (a b : IconFile) : Z :=
  let scoreA := Search.getRelevanceScore toLowerCase q a in
  let scoreB := Search.getRelevanceScore toLowerCase q b in
  if negb (scoreA =? scoreB) then scoreB - scoreA
  else Search.compareDirectoryName localeCompare
         (normalized normalize a) (normalized normalize b).

End Order.
End Rank.

(** ** The HTTP handlers of route.ts: [GET] *)
Module Http.
Import JS Eff Fs.
Local Open Scope eff_scope.

(** The three parameters the handlers read; [searchParams.get] gives
    [null] for a parameter that is absent. *)
Record SearchParams := mkParams {
  q : option jsstring;
  dir : option jsstring;
  filter_dir : option jsstring
}.

(** The body and status handed to [NextResponse.json]. *)
Record Response := mkResponse {
  status : Z;
  error : option jsstring;
  icons : list IconFile;
  total : Z;
  query : jsstring;
  directories : list jsstring
}.

(** [value || fallback]: [null] and the empty string are falsy. *)
Definition orElse (value : option jsstring) (fallback : jsstring) : jsstring :=
  match value with
  | Some (c :: s) => c :: s
  | _ => fallback
  end.

(** [value || undefined] *)
Definition orUndefined (value : option jsstring) : option jsstring :=
  match value with
  | Some (c :: s) => Some (c :: s)
  | _ => None
  end.

(** The response of the [catch] branch. *)
Definition failure : Response :=
  mkResponse 500 (Some (lit "Failed to search icons")) [] 0 [] [].

Section Handlers.
Variable toLowerCase : jsstring -> jsstring.
Variable localeCompare : jsstring -> jsstring -> Z.

(** route.ts lines 222-246.  [url] is the result of [new URL(request.url)],
    which throws on a string that is not a URL. *)
Definition GET (fsys : jsstring -> rootdir) (url : outcome SearchParams)
    : outcome Response :=
  Entry.runAsync
    (tryCatch
       (let! searchParams := await url in
        let query_ := orElse (q searchParams) [] in
        let directory_ := orElse (dir searchParams) (lit "public/icons") in
        let filterDir := orUndefined (filter_dir searchParams) in
        let! found :=
          await (Entry.searchIconFiles toLowerCase localeCompare fsys
                   query_ directory_ filterDir) in
        match found with
        | mkOutcome icons_ directories_ =>
            ret (mkResponse 200 None icons_ (Z.of_nat (List.length icons_))
                   query_ directories_)
        end)
       (fun _ => ret failure)).

(** The handler of the variant that loads the snapshot: [dir] is not read
    and the file is always [/app/icons.json]. *)
Definition GETJson (readFile : jsstring -> outcome jsstring)
    (JSON_parse : jsstring -> outcome (list IconFile))
    (url : outcome SearchParams) : outcome Response :=
  Entry.runAsync
    (tryCatch
       (let! searchParams := await url in
        let query_ := orElse (q searchParams) [] in
        let filterDir := orUndefined (filter_dir searchParams) in
        let! found :=
          await (Entry.searchIconFilesJson toLowerCase localeCompare
                   readFile JSON_parse query_ (lit "/app/icons.json")
                   filterDir) in
        match found with
        | mkOutcome icons_ directories_ =>
            ret (mkResponse 200 None icons_ (Z.of_nat (List.length icons_))
                   query_ directories_)
        end)
       (fun _ => ret failure)).

End Handlers.
End Http.

(** ** Entries of a listing, as the traversals treat them *)
Module Walk.
Import JS Eff Fs.

(** An entry whose metadata or listing cannot be read. *)
Definition failing (entry : dirent) : bool :=
  match entry with
  | FileEnt _ (Throws _) => true
  | DirEnt _ (Throws _) => true
  | _ => false
  end.

(** A tree of regular files and directories that can all be read and of
    which the route skips none. *)
Fixpoint plainEntry (entry : dirent) : bool :=
  match entry with
  | FileEnt _ (Returns _) => true
  | DirEnt n (Returns entries) =>
      negb (Tree.skipped n) && forallb plainEntry entries
  | _ => false
  end.

(** The record the script writes for the file of the route's record [f]:
    lines 27-35 of generate-icons-json.js on the same name, relative path,
    statistics and depth. *)
Definition asScript (f : IconFile) : IconFile :=
  mkIconFile
    (name f)
    (lit "/icons/" ++ relativePath f)
    (relativePath f)
    (match replaceBackslashes (NodePath.dirname (relativePath f)) with
     | [] => lit "root"
     | d => d
     end)
    (size f)
    (lastModified f)
    (depth f).

Section Extensions.
Variable toLowerCase : jsstring -> jsstring.
Variable maxDepth : Z.

(** The extension test both traversals apply to an entry's name. *)
Definition supported (entryName : jsstring) : bool :=
  existsb (eqb (toLowerCase (NodePath.extname entryName))) supportedFormats.


End Extensions.
End Walk.

(** ** The page component: [formatFileName] *)
Module Page.
Import JS.

(** The alternatives of [/\.(svg|png|jpg|jpeg|gif|webp|ico)$/i]. *)
Definition extensionAlternatives : list jsstring :=
  map lit ["svg"; "png"; "jpg"; "jpeg"; "gif"; "webp"; "ico"]%string.

(** The regular expression matches at the start of [rest]: a dot, then one
    of the alternatives up to the end of the string.  Without the [u] flag
    the [i] flag folds the ASCII letters only. *)
Definition matchesExtensionHere (rest : jsstring) : bool :=
  match rest with
  | c :: r => N.eqb c 46 && existsb (eqb (asciiLower r)) extensionAlternatives
  | [] => false
  end.

(** [.replace(/\.(svg|png|jpg|jpeg|gif|webp|ico)$/i, "")]: the leftmost
    match is removed. *)
Fixpoint stripExtension (s : jsstring) : jsstring :=
  match s with
  | [] => []
  | c :: s' => if matchesExtensionHere s then [] else c :: stripExtension s'
  end.

(** [.replace(/-/g, " ")] *)
Definition hyphensToSpaces (s : jsstring) : jsstring :=
  map (fun c => if N.eqb c 45 then 32%N else c) s.

(** [\w]: an ASCII letter, a digit or the underscore. *)
Definition isWordChar (c : N) : bool :=
  (N.leb 97 c && N.leb c 122) || (N.leb 65 c && N.leb c 90)
  || (N.leb 48 c && N.leb c 57) || N.eqb c 95.

(** [l.toUpperCase()] on one word character. *)
Definition upperChar (c : N) : N :=
  if N.leb 97 c && N.leb c 122 then (c - 32)%N else c.

(** [.replace(/\b\w/g, (l) => l.toUpperCase())]: a word character is
    replaced when the code unit before it is not one. *)
Fixpoint capitalizeWords (afterWordChar : bool) (s : jsstring) : jsstring :=
  match s with
  | [] => []
  | c :: s' =>
      (if isWordChar c && negb afterWordChar then upperChar c else c)
        :: capitalizeWords (isWordChar c) s'
  end.

Definition formatFileName (filename : jsstring) : jsstring :=
  capitalizeWords false (hyphensToSpaces (stripExtension filename)).

End Page.

(** ** The directory filter component: [buildDirectoryTree] *)
Module DirectoryFilter.
Import JS Eff.

(** The object [tree]: its own properties in insertion order. *)
Definition tree : Type := list (jsstring * list jsstring).

(** The own property [key] of the object. *)
Fixpoint lookup (key : jsstring) (t : tree) : option (list jsstring) :=
  match t with
  | [] => None
  | (k, v) :: t' => if eqb k key then Some v else lookup key t'
  end.

(** [tree[key] = v] *)
Fixpoint assign (key : jsstring) (v : list jsstring) (t : tree) : tree :=
  match t with
  | [] => [(key, v)]
  | (k, v0) :: t' =>
      if eqb k key then (k, v) :: t' else (k, v0) :: assign key v t'
  end.

(** The property names every object literal inherits from
    [Object.prototype]; reading one of them from [tree] gives a function
    (or the prototype itself), which is truthy and has no [includes]. *)
Definition objectPrototypeKeys : list jsstring :=
  map lit ["constructor"; "__defineGetter__"; "__defineSetter__";
           "hasOwnProperty"; "__lookupGetter__"; "__lookupSetter__";
           "isPrototypeOf"; "propertyIsEnumerable"; "toString"; "valueOf";
           "__proto__"; "toLocaleString"]%string.

Definition inherited (key : jsstring) : bool :=
  existsb (eqb key) objectPrototypeKeys.

(** The two [if] statements of the inner callback (lines 30-36). *)
Definition addChild (t : tree) (parentPath currentPath : jsstring)
    : outcome tree :=
  let t1 :=
    match lookup parentPath t with
    | Some _ => t
    | None => if inherited parentPath then t else assign parentPath [] t
    end in
  match lookup parentPath t1 with
  | Some children =>
      Returns (if existsb (eqb currentPath) children then t1
               else assign parentPath (children ++ [currentPath]) t1)
  | None => Throws TypeError
  end.

(** [currentPath ? `${currentPath}/${part}` : part] *)
Definition joinPath (currentPath part : jsstring) : jsstring :=
  match currentPath with
  | [] => part
  | _ :: _ => currentPath ++ [47%N] ++ part
  end.

(** [parts.forEach(...)], from the value [currentPath] has reached. *)
Fixpoint addParts (parts : list jsstring) (currentPath : jsstring) (t : tree)
    : outcome tree :=
  match parts with
  | [] => Returns t
  | part :: rest =>
      let parentPath := currentPath in
      let currentPath := joinPath currentPath part in
      match addChild t parentPath currentPath with
      | Returns t' => addParts rest currentPath t'
      | Throws e => Throws e
      end
  end.

(** [dirs.forEach(...)] *)
Fixpoint addDirs (dirs : list jsstring) (t : tree) : outcome tree :=
  match dirs with
  | [] => Returns t
  | dir :: rest =>
      if eqb dir (lit "root") then addDirs rest t
      else
        match addParts (split 47 dir) [] t with
        | Returns t' => addDirs rest t'
        | Throws e => Throws e
        end
  end.

Definition buildDirectoryTree (dirs : list jsstring) : outcome tree :=
  addDirs dirs [].

(** Some entry of the tree lists [path] as a child. *)
Definition listed (t : tree) (path : jsstring) : Prop :=
  exists parent children, lookup parent t = Some children /\ In path children.

(** Every entry has children, without repetition, each of them the key
    joined with one more part; no key is an inherited property name. *)
Definition shaped (t : tree) : Prop :=
  forall key children,
    lookup key t = Some children ->
    children <> [] /\ NoDup children /\ inherited key = false
    /\ forall child, In child children -> exists part, child = joinPath key part.

End DirectoryFilter.

(** ** More inputs *)
Module Cases.
Import JS Eff Fs.


(** An image whose metadata cannot be read, after one that can. *)
Definition unreadableImage : dirent := FileEnt (lit "bad.png") (Throws EACCES).

(** An image below a directory named [public]. *)
Definition publicTree : list dirent :=
  [DirEnt (lit "public") (Returns [FileEnt (lit "q.ico") Samples.someStats])].


(** A roster as the search returns it. *)
Definition roster : list jsstring :=
  map lit ["compute"; "compute/diagrams"; "root"]%string.

Definition someParams : Http.SearchParams :=
  Http.mkParams (Some (lit "svg")) None (Some []).

End Cases.

(** ** A collation with canonically equivalent strings *)
Module Canonical.
Import JS.

(** ECMAScript requires [localeCompare] to return 0 on canonically
    equivalent strings.  [canonicalCompare] does so for one pair of forms:
    the precomposed U+00E9 is compared as [e] followed by the combining
    acute accent U+0301; apart from that it is the code-unit order. *)
Definition decompose (s : jsstring) : jsstring :=
  flat_map (fun c => if N.eqb c 233 then [101; 769]%N else [c]) s.

Definition canonicalCompare (a b : jsstring) : Z :=
  defaultCompare (decompose a) (decompose b).


(** The directory name [caf] followed by U+00E9, and by [e] and U+0301. *)
Definition cafePrecomposed : jsstring := [99; 97; 102; 233]%N.
Definition cafeDecomposed : jsstring := [99; 97; 102; 101; 769]%N.


(** Three records with the same relevance for the query [svg]: two in one
    directory, one in another. *)
Definition tiedRecords : list IconFile :=
  [ Samples.icon "b.svg" "x" "x/b.svg" 1;
    Samples.icon "a.svg" "y" "y/a.svg" 1;
    Samples.icon "a.svg" "x" "x/a.svg" 1 ].

Definition tiedSorted : list IconFile :=
  [ Samples.icon "a.svg" "x" "x/a.svg" 1;
    Samples.icon "b.svg" "x" "x/b.svg" 1;
    Samples.icon "a.svg" "y" "y/a.svg" 1 ].

End Canonical.

(** * Properties *)

Import JS Spec Eff Fs Tree.

(** ** Strings: equality, prefixes and substrings *)

Lemma eqb_eq (a b : jsstring) : eqb a b = true <-> a = b.
Proof.
  revert b; induction a as [|c a IH]; intros [|d b]; simpl;
    try (split; [discriminate | congruence]); try tauto.
  rewrite andb_true_iff, N.eqb_eq, IH.
  split; [intros [-> ->]; reflexivity | intros H; inversion H; auto].
Qed.

Lemma eqb_refl (a : jsstring) : eqb a a = true.
Proof. apply eqb_eq; reflexivity. Qed.

Lemma eqb_neq (a b : jsstring) : eqb a b = false <-> a <> b.
Proof.
  rewrite <- eqb_eq. destruct (eqb a b); split; congruence.
Qed.

Lemma startsWith_spec (s q : jsstring) :
  startsWith s q = true <-> exists r, s = q ++ r.
Proof.
  revert s; induction q as [|c q IH]; intros s; simpl.
  - split; [intros _; exists s; reflexivity | reflexivity].
  - destruct s as [|d s].
    + split; [discriminate | intros [r H]; discriminate].
    + rewrite andb_true_iff, N.eqb_eq, IH. split.
      * intros [-> [r ->]]. exists r; reflexivity.
      * intros [r H]. inversion H; subst. split; [reflexivity | eauto].
Qed.

Lemma includes_spec (s q : jsstring) :
  includes s q = true <-> substringOf q s.
Proof.
  unfold substringOf. induction s as [|d s IH].
  - simpl. rewrite orb_false_r, startsWith_spec. split.
    + intros [r H]. exists [], r. exact H.
    + intros [l [r H]]. destruct l; [exists r; exact H | discriminate].
  - cbn [includes]. rewrite orb_true_iff, startsWith_spec, IH. split.
    + intros [[r H] | [l [r H]]].
      * exists [], r. exact H.
      * exists (d :: l), r. simpl. rewrite H. reflexivity.
    + intros [[|c l] [r H]].
      * left. exists r. exact H.
      * right. inversion H; subst. exists l, r. reflexivity.
Qed.

Lemma substringOf_refl (s : jsstring) : substringOf s s.
Proof. exists [], []. rewrite app_nil_r. reflexivity. Qed.

Lemma substringOf_trans (a b c : jsstring) :
  substringOf a b -> substringOf b c -> substringOf a c.
Proof.
  intros [l1 [r1 ->]] [l2 [r2 ->]].
  exists (l2 ++ l1), (r1 ++ r2). repeat rewrite <- app_assoc. reflexivity.
Qed.

Lemma includes_refl (s : jsstring) : includes s s = true.
Proof. apply includes_spec, substringOf_refl. Qed.

Lemma startsWith_refl (s : jsstring) : startsWith s s = true.
Proof. apply startsWith_spec. exists []. rewrite app_nil_r. reflexivity. Qed.

Lemma includes_mono (t s q : jsstring) :
  substringOf t s -> includes t q = true -> includes s q = true.
Proof.
  rewrite !includes_spec. intros H1 H2. eapply substringOf_trans; eauto.
Qed.

Lemma slice_substringOf (s : jsstring) (a b : nat) :
  substringOf (slice s a b) s.
Proof.
  exists (firstn a s), (skipn (b - a) (skipn a s)). unfold slice.
  rewrite firstn_skipn, firstn_skipn. reflexivity.
Qed.

Lemma nil_substringOf (s : jsstring) : substringOf [] s.
Proof. exists [], s. reflexivity. Qed.

Lemma split_aux_substringOf (sep : N) (s : jsstring) :
  (exists r, s = fst (split_aux sep s) ++ r) /\
  forall t, In t (snd (split_aux sep s)) -> exists l r, s = l ++ t ++ r.
Proof.
  induction s as [|c s [[r0 Hfst] Hsnd]]; simpl.
  - split; [exists []; reflexivity | intros t []].
  - destruct (split_aux sep s) as [t0 ts] eqn:E. simpl in *.
    destruct (N.eqb c sep); simpl.
    + split; [eexists; reflexivity |].
      intros t [<- | Ht].
      * exists [c], r0. simpl. rewrite <- Hfst. reflexivity.
      * destruct (Hsnd t Ht) as [l [r ->]]. exists (c :: l), r. reflexivity.
    + split.
      * exists r0. rewrite Hfst at 1. reflexivity.
      * intros t Ht. destruct (Hsnd t Ht) as [l [r ->]].
        exists (c :: l), r. reflexivity.
Qed.

Lemma split_substringOf (sep : N) (s t : jsstring) :
  In t (split sep s) -> substringOf t s.
Proof.
  unfold split. destruct (split_aux_substringOf sep s) as [[r Hfst] Hsnd].
  destruct (split_aux sep s) as [t0 ts]. simpl in *.
  intros [<- | Ht].
  - exists [], r. exact Hfst.
  - apply Hsnd, Ht.
Qed.

Lemma parse_name_substringOf (p : jsstring) :
  substringOf (NodePath.name (NodePath.parse p)) p.
Proof.
  unfold NodePath.parse. destruct p as [|c0 p]; [apply nil_substringOf |].
  set (st := NodePath.scanLoop _ _ _ _).
  destruct (negb (NodePath.end_ st =? -1)); [| apply nil_substringOf].
  destruct (NodePath.noExtension st); apply slice_substringOf.
Qed.

(** ** Matching and scoring *)

Section Matching.
Variable toLowerCase : jsstring -> jsstring.

Abbreviation searchTargets := (Search.searchTargets toLowerCase).
Abbreviation matchesSearch := (Search.matchesSearch toLowerCase).
Abbreviation getRelevanceScore := (Search.getRelevanceScore toLowerCase).

(** Every target is cut out of the lower-cased filename, directory or
    relative path. *)
Lemma searchTargets_sources (file : IconFile) (target : jsstring) :
  In target (searchTargets file) ->
  substringOf target (toLowerCase (name file))
  \/ substringOf target (toLowerCase (directory file))
  \/ substringOf target (toLowerCase (relativePath file)).
Proof.
  unfold Search.searchTargets. cbn [app In]. rewrite !in_app_iff.
  intros [<- | [<- | [<- | [<- | [H | [H | H]]]]]].
  - left. apply substringOf_refl.
  - left. apply parse_name_substringOf.
  - right; left. apply substringOf_refl.
  - right; right. apply substringOf_refl.
  - left. eapply substringOf_trans;
      [eapply split_substringOf, H | apply parse_name_substringOf].
  - right; left. eapply split_substringOf, H.
  - right; right. eapply split_substringOf, H.
Qed.

Lemma matchesSearch_spec (q : jsstring) (file : IconFile) :
  matchesSearch q file = true <-> matchesSomeTarget toLowerCase q file.
Proof.
  unfold Search.matchesSearch, matchesSomeTarget. rewrite existsb_exists.
  split; intros [t [Hin Ht]]; exists t; split; auto; apply includes_spec; auto.
Qed.

(** C1. The relevance score is the sum of the four bonuses (100 for an
    exact match of the lower-cased or extension-stripped filename, 50 for a
    prefix match of either, 25 when the lower-cased directory contains the
    query, 10 when the lower-cased filename contains it) minus the record's
    depth; the bonuses are independent, so an exact match also receives the
    prefix bonus. *)
Theorem relevance_score_is_sum_of_bonuses (q : jsstring) (file : IconFile) :
  exists exact prefix inDirectory inName : bool,
    (exact = true <-> exactMatch toLowerCase q file)
    /\ (prefix = true <-> prefixMatch toLowerCase q file)
    /\ (inDirectory = true <-> substringOf q (toLowerCase (directory file)))
    /\ (inName = true <-> substringOf q (toLowerCase (name file)))
    /\ (exact = true -> prefix = true)
    /\ getRelevanceScore q file
       = bonus exact 100 + bonus prefix 50 + bonus inDirectory 25
         + bonus inName 10 - depth file.
Proof.
  set (fileName := toLowerCase (name file)).
  set (stripped := NodePath.name (NodePath.parse fileName)).
  exists (eqb fileName q || eqb stripped q),
         (startsWith fileName q || startsWith stripped q),
         (includes (toLowerCase (directory file)) q),
         (includes fileName q).
  unfold exactMatch, prefixMatch, lowerName, strippedName, prefixOf.
  fold fileName stripped.
  repeat split.
  - rewrite orb_true_iff, !eqb_eq. tauto.
  - rewrite orb_true_iff, !eqb_eq. tauto.
  - rewrite orb_true_iff, !startsWith_spec. tauto.
  - rewrite orb_true_iff, !startsWith_spec. tauto.
  - apply includes_spec.
  - apply includes_spec.
  - apply includes_spec.
  - apply includes_spec.
  - rewrite !orb_true_iff, !eqb_eq.
    intros [<- | <-]; [left | right]; apply startsWith_refl.
  - unfold Search.getRelevanceScore. fold fileName stripped.
    destruct (eqb fileName q || eqb stripped q),
             (startsWith fileName q || startsWith stripped q),
             (includes (toLowerCase (directory file)) q),
             (includes fileName q); unfold bonus; lia.
Qed.

(** C10. The match predicate over the seven classes of targets accepts
    exactly the records whose lower-cased filename, directory or relative
    path contains the query: the other targets are cut out of these three. *)
Theorem match_predicate_equals_simple_match (q : jsstring) (file : IconFile) :
  matchesSearch q file = simpleMatch toLowerCase q file.
Proof.
  apply eq_true_iff_eq. unfold simpleMatch.
  rewrite !orb_true_iff. split.
  - unfold Search.matchesSearch. rewrite existsb_exists.
    intros [t [Hin Ht]].
    destruct (searchTargets_sources file t Hin) as [H | [H | H]];
      [left; left | left; right | right]; eapply includes_mono; eauto.
  - intros H. unfold Search.matchesSearch, Search.searchTargets.
    rewrite existsb_exists. cbn [app In].
    destruct H as [[H | H] | H]; eexists; split; try exact H; tauto.
Qed.

End Matching.

(** ** Arrays: [sort] and [new Set] *)

Section SortFacts.
Context {A : Type}.
Variable cmp : A -> A -> Z.

Lemma insert_perm (x : A) (l : list A) : Permutation (insert cmp x l) (x :: l).
Proof.
  induction l as [|y l IH]; simpl; [reflexivity |].
  destruct (cmp x y <? 0); [reflexivity |].
  rewrite IH. apply perm_swap.
Qed.

Lemma sort_from_perm (l acc : list A) :
  Permutation (fold_left (fun acc x => insert cmp x acc) l acc) (acc ++ l).
Proof.
  revert acc; induction l as [|x l IH]; intros acc; simpl.
  - rewrite app_nil_r. reflexivity.
  - rewrite IH, insert_perm. apply Permutation_middle.
Qed.

Lemma sort_perm (l : list A) : Permutation (sort cmp l) l.
Proof. apply (sort_from_perm l []). Qed.

Lemma sort_In (l : list A) (x : A) : In x (sort cmp l) <-> In x l.
Proof.
  split; apply Permutation_in; [| symmetry]; apply sort_perm.
Qed.

(** A relation the comparator decides: it holds left to right whenever the
    comparator puts the left element first, and right to left otherwise. *)
Variable R : A -> A -> Prop.
Hypothesis R_first : forall x y, cmp x y < 0 -> R x y.
Hypothesis R_other : forall x y, 0 <= cmp x y -> R y x.
Hypothesis R_trans : forall x y z, R x y -> R y z -> R x z.

Lemma insert_sorted (x : A) (l : list A) :
  StronglySorted R l -> StronglySorted R (insert cmp x l).
Proof.
  induction l as [|y l IH]; intros Hs; simpl.
  - constructor; constructor.
  - inversion Hs as [|? ? Hl Hy]; subst.
    destruct (Z.ltb_spec (cmp x y) 0) as [Hlt | Hge].
    + constructor; [exact Hs |]. constructor; [auto |].
      eapply Forall_impl; [| exact Hy]. intros z Hz.
      eapply R_trans; [apply R_first, Hlt | exact Hz].
    + constructor; [auto |].
      rewrite Forall_forall. intros z Hz.
      apply (Permutation_in _ (insert_perm x l)) in Hz.
      destruct Hz as [<- | Hz]; [auto |].
      rewrite Forall_forall in Hy. auto.
Qed.

Lemma sort_from_sorted (l acc : list A) :
  StronglySorted R acc ->
  StronglySorted R (fold_left (fun acc x => insert cmp x acc) l acc).
Proof.
  revert acc; induction l as [|x l IH]; intros acc Hs; simpl; auto.
  apply IH, insert_sorted, Hs.
Qed.

Lemma sort_sorted (l : list A) : StronglySorted R (sort cmp l).
Proof. apply sort_from_sorted. constructor. Qed.

End SortFacts.

Lemma StronglySorted_weaken {A} (R Q : A -> A -> Prop) (l : list A) :
  (forall x y, In x l -> In y l -> R x y -> Q x y) ->
  StronglySorted R l -> StronglySorted Q l.
Proof.
  induction l as [|x l IH]; intros HRQ Hs; [constructor |].
  inversion Hs as [|? ? Hl Hx]; subst. constructor.
  - apply IH; [| exact Hl]. intros; apply HRQ; simpl; auto.
  - rewrite Forall_forall in *. intros y Hy. apply HRQ; simpl; auto.
Qed.

(** In an ordered list the element at the smaller index is related to the
    one at the larger index. *)
Lemma StronglySorted_nth {A} (R : A -> A -> Prop) (l : list A) :
  StronglySorted R l ->
  forall i j x y, (i < j)%nat ->
    nth_error l i = Some x -> nth_error l j = Some y -> R x y.
Proof.
  induction 1 as [|a l Hl IH Ha]; intros i j x y Hij Hi Hj.
  - destruct i; discriminate.
  - destruct j as [|j]; [lia |]. simpl in Hj.
    destruct i as [|i]; simpl in Hi.
    + inversion Hi; subst. rewrite Forall_forall in Ha.
      eapply Ha, nth_error_In, Hj.
    + eapply IH; [| exact Hi | exact Hj]. lia.
Qed.

Section SetFacts.
Context {A : Type}.
Variable eq : A -> A -> bool.
Hypothesis eq_spec : forall a b, eq a b = true <-> a = b.

Lemma existsb_eq_In (x : A) (l : list A) : existsb (eq x) l = true <-> In x l.
Proof.
  rewrite existsb_exists. split.
  - intros [y [Hy Hxy]]. apply eq_spec in Hxy. subst; auto.
  - intros H. exists x. split; [auto | apply eq_spec; auto].
Qed.

Lemma newSet_from (l acc : list A) :
  NoDup acc ->
  NoDup (fold_left (setAdd eq) l acc)
  /\ forall x, In x (fold_left (setAdd eq) l acc) <-> In x acc \/ In x l.
Proof.
  revert acc; induction l as [|y l IH]; intros acc Hnd; simpl.
  - split; [auto | tauto].
  - unfold setAdd at 2 4. destruct (existsb (eq y) acc) eqn:E.
    + destruct (IH acc Hnd) as [H1 H2]. split; [auto |].
      intros x. rewrite H2. apply existsb_eq_In in E.
      split; [tauto | intros [H | [<- | H]]; auto].
    + assert (Hy : ~ In y acc).
      { intros H. apply existsb_eq_In in H. congruence. }
      assert (Hnd' : NoDup (acc ++ [y])).
      { apply NoDup_app; [exact Hnd | repeat constructor; simpl; tauto |].
        intros x Hx [<- | []]. auto. }
      destruct (IH _ Hnd') as [H1 H2]. split; [auto |].
      intros x. rewrite H2, in_app_iff. simpl. tauto.
Qed.

Lemma newSet_NoDup (l : list A) : NoDup (newSet eq l).
Proof. apply (newSet_from l []). constructor. Qed.

Lemma newSet_In (l : list A) (x : A) : In x (newSet eq l) <-> In x l.
Proof.
  unfold newSet. destruct (newSet_from l [] (NoDup_nil A)) as [_ H].
  rewrite H. simpl. tauto.
Qed.

End SetFacts.

(** ** The code-unit order *)

Lemma compareCodeUnits_eq (a b : jsstring) :
  compareCodeUnits a b = Eq <-> a = b.
Proof.
  revert b; induction a as [|c a IH]; intros [|d b]; simpl;
    try (split; [discriminate | congruence]); try tauto.
  destruct (N.compare_spec c d) as [-> | Hlt | Hgt].
  - rewrite IH. split; [congruence | intros H; inversion H; auto].
  - split; [discriminate | intros H; inversion H; lia].
  - split; [discriminate | intros H; inversion H; lia].
Qed.

Lemma compareCodeUnits_swap (a b : jsstring) :
  compareCodeUnits b a = CompOpp (compareCodeUnits a b).
Proof.
  revert b; induction a as [|c a IH]; intros [|d b]; simpl; auto.
  rewrite (N.compare_antisym c d).
  destruct (N.compare c d); simpl; auto.
Qed.

Lemma compareCodeUnits_lt_trans (a b c : jsstring) :
  compareCodeUnits a b = Lt -> compareCodeUnits b c = Lt ->
  compareCodeUnits a c = Lt.
Proof.
  revert b c; induction a as [|x a IH]; intros [|y b] [|z c]; simpl;
    try discriminate; auto.
  destruct (N.compare_spec x y) as [-> | Hxy | Hxy]; try discriminate.
  - destruct (N.compare z z) eqn:Ezz; destruct (N.compare_spec y z);
      try discriminate; auto.
    + apply IH.
    + subst. rewrite N.compare_refl in Ezz. discriminate.
    + subst. rewrite N.compare_refl in Ezz. discriminate.
  - intros _. destruct (N.compare_spec y z) as [-> | Hyz | Hyz];
      try discriminate; intros _.
    + apply N.compare_lt_iff in Hxy. rewrite Hxy. reflexivity.
    + assert (H : (x < z)%N) by lia.
      apply N.compare_lt_iff in H. rewrite H. reflexivity.
Qed.

(** [a] is not after [b]. *)
Lemma compareCodeUnits_le_trans (a b c : jsstring) :
  compareCodeUnits a b <> Gt -> compareCodeUnits b c <> Gt ->
  compareCodeUnits a c <> Gt.
Proof.
  intros Hab Hbc.
  destruct (compareCodeUnits a b) eqn:Eab; [| | congruence].
  - apply compareCodeUnits_eq in Eab. subst. exact Hbc.
  - destruct (compareCodeUnits b c) eqn:Ebc; [| | congruence].
    + apply compareCodeUnits_eq in Ebc. subst. rewrite Eab. discriminate.
    + rewrite (compareCodeUnits_lt_trans a b c Eab Ebc). discriminate.
Qed.

Lemma defaultCompare_sign (a b : jsstring) :
  (defaultCompare a b < 0 <-> compareCodeUnits a b = Lt)
  /\ (defaultCompare a b = 0 <-> compareCodeUnits a b = Eq)
  /\ (0 < defaultCompare a b <-> compareCodeUnits a b = Gt).
Proof.
  unfold defaultCompare. destruct (compareCodeUnits a b);
    repeat split; intros; try lia; try discriminate; auto.
Qed.

Lemma defaultCompare_zero (a b : jsstring) : defaultCompare a b = 0 -> a = b.
Proof.
  intros H. apply compareCodeUnits_eq, defaultCompare_sign, H.
Qed.

Lemma defaultCompare_swap (a b : jsstring) :
  defaultCompare a b < 0 <-> 0 < defaultCompare b a.
Proof.
  unfold defaultCompare. rewrite (compareCodeUnits_swap a b).
  destruct (compareCodeUnits a b); simpl; lia.
Qed.

Lemma defaultCompare_trans (a b c : jsstring) :
  defaultCompare a b <= 0 -> defaultCompare b c <= 0 -> defaultCompare a c <= 0.
Proof.
  intros Hab Hbc.
  assert (H : compareCodeUnits a c <> Gt).
  { apply (compareCodeUnits_le_trans a b c);
      intros E; unfold defaultCompare in *; rewrite E in *; lia. }
  unfold defaultCompare. destruct (compareCodeUnits a c); try lia. congruence.
Qed.

(** ** The directory roster *)

Lemma uniqueDirectories_isRoster (allFiles : list IconFile) :
  isRoster allFiles (Search.uniqueDirectories allFiles).
Proof.
  unfold Search.uniqueDirectories.
  set (ds := newSet eqb (map directory allFiles)).
  assert (Hnd : NoDup (sort defaultCompare ds)).
  { eapply Permutation_NoDup; [symmetry; apply sort_perm |].
    apply newSet_NoDup, eqb_eq. }
  repeat split.
  - rewrite sort_In. unfold ds. rewrite (newSet_In eqb eqb_eq), in_map_iff.
    intros [f [Hf Hin]]; eauto.
  - rewrite sort_In. unfold ds. rewrite (newSet_In eqb eqb_eq), in_map_iff.
    intros [f [Hin Hf]]; eauto.
  - exact Hnd.
  - assert (Hle : StronglySorted (fun a b => compareCodeUnits a b <> Gt)
                    (sort defaultCompare ds)).
    { apply sort_sorted.
      - intros x y H. apply defaultCompare_sign in H. congruence.
      - intros x y H. rewrite compareCodeUnits_swap.
        unfold defaultCompare in H.
        destruct (compareCodeUnits x y); simpl; try discriminate. lia.
      - apply compareCodeUnits_le_trans. }
    revert Hnd Hle. generalize (sort defaultCompare ds) as l.
    induction l as [|x l IH]; intros Hnd Hle; [constructor |].
    inversion Hnd as [|? ? Hx Hnd']; inversion Hle as [|? ? Hl Hxl]; subst.
    constructor; [auto |].
    rewrite Forall_forall in *. intros y Hy.
    specialize (Hxl y Hy). destruct (compareCodeUnits x y) eqn:E; auto.
    + apply compareCodeUnits_eq in E. subst. contradiction.
    + congruence.
Qed.

Section Roster.
Variable toLowerCase : jsstring -> jsstring.
Variable localeCompare : jsstring -> jsstring -> Z.

Lemma directories_searchFiles allFiles searchTerm filterDir :
  directories (Search.searchFiles toLowerCase localeCompare
                 allFiles searchTerm filterDir)
  = Search.uniqueDirectories allFiles.
Proof.
  unfold Search.searchFiles. destruct (trim searchTerm); reflexivity.
Qed.

Lemma directories_searchFilesJson allFiles searchTerm filterDir :
  directories (Search.searchFilesJson toLowerCase localeCompare
                 allFiles searchTerm filterDir)
  = Search.uniqueDirectories allFiles.
Proof.
  unfold Search.searchFilesJson. destruct (trim searchTerm); reflexivity.
Qed.

(** C3. Whatever the query and the directory filter, the [directories]
    field lists exactly the [directory] values of the unfiltered records,
    without duplicates and in ascending order; this holds for the live
    route and for the variant that loads the snapshot. *)
Theorem directories_is_full_sorted_roster
    (allFiles : list IconFile) (searchTerm : jsstring)
    (filterDir : option jsstring) :
  isRoster allFiles
    (directories (Search.searchFiles toLowerCase localeCompare
                    allFiles searchTerm filterDir))
  /\ isRoster allFiles
       (directories (Search.searchFilesJson toLowerCase localeCompare
                       allFiles searchTerm filterDir)).
Proof.
  rewrite directories_searchFiles, directories_searchFilesJson.
  split; apply uniqueDirectories_isRoster.
Qed.

End Roster.

(** ** Sorting with a comparator that is consistent on the elements *)

Section SortOn.
Context {A : Type}.
Variable cmp : A -> A -> Z.
Variable R : A -> A -> Prop.
Variable P : A -> Prop.
Hypothesis R_first : forall x y, P x -> P y -> cmp x y < 0 -> R x y.
Hypothesis R_other : forall x y, P x -> P y -> 0 <= cmp x y -> R y x.
Hypothesis R_trans :
  forall x y z, P x -> P y -> P z -> R x y -> R y z -> R x z.

Lemma insert_sorted_on (x : A) (l : list A) :
  P x -> Forall P l -> StronglySorted R l -> StronglySorted R (insert cmp x l).
Proof.
  intros Px. induction l as [|y l IH]; intros HP Hs; simpl.
  - constructor; constructor.
  - inversion Hs as [|? ? Hl Hy]; subst.
    inversion HP as [|? ? Py HPl]; subst.
    destruct (Z.ltb_spec (cmp x y) 0) as [Hlt | Hge].
    + constructor; [exact Hs |]. constructor; [auto |].
      rewrite Forall_forall in *. intros z Hz.
      apply (R_trans x y z); auto.
    + constructor; [auto |].
      rewrite Forall_forall. intros z Hz.
      apply (Permutation_in _ (insert_perm cmp x l)) in Hz.
      rewrite Forall_forall in Hy, HPl.
      destruct Hz as [<- | Hz]; auto.
Qed.

Lemma sort_from_sorted_on (l acc : list A) :
  Forall P l -> Forall P acc -> StronglySorted R acc ->
  StronglySorted R (fold_left (fun acc x => insert cmp x acc) l acc).
Proof.
  revert acc; induction l as [|x l IH]; intros acc Hl Hacc Hs; simpl; auto.
  inversion Hl as [|? ? Px Hl']; subst.
  apply IH; [exact Hl' | | apply insert_sorted_on; auto].
  rewrite Forall_forall in *. intros z Hz.
  apply (Permutation_in _ (insert_perm cmp x acc)) in Hz.
  destruct Hz as [<- | Hz]; auto.
Qed.

Lemma sort_sorted_on (l : list A) : Forall P l -> StronglySorted R (sort cmp l).
Proof. intros Hl. apply sort_from_sorted_on; auto; constructor. Qed.

End SortOn.

(** ** Blank queries *)

Lemma trimStart_nil (s : jsstring) :
  trimStart s = [] <-> forallb isWhiteSpace s = true.
Proof.
  induction s as [|c s IH]; simpl; [tauto |].
  destruct (isWhiteSpace c); simpl; [exact IH |].
  split; discriminate.
Qed.

Lemma trimStart_head (s : jsstring) (c : N) (r : jsstring) :
  trimStart s = c :: r -> isWhiteSpace c = false.
Proof.
  induction s as [|d s IH]; simpl; [discriminate |].
  destruct (isWhiteSpace d) eqn:E; [exact IH |].
  intros H; inversion H; subst; exact E.
Qed.

Lemma trim_blank (s : jsstring) : trim s = [] <-> blankQuery s = true.
Proof.
  unfold trim, blankQuery. rewrite <- trimStart_nil. split.
  - intros H. apply (f_equal (@rev N)) in H. rewrite rev_involutive in H.
    simpl in H. apply trimStart_nil in H. rewrite forallb_forall in H.
    destruct (trimStart s) as [|c r] eqn:E; [reflexivity |].
    pose proof (trimStart_head _ _ _ E) as Hc.
    rewrite (H c) in Hc; [discriminate |].
    apply in_rev. rewrite rev_involutive. left; reflexivity.
  - intros ->. reflexivity.
Qed.

(** ** The icons of a search *)

Section Icons.
Variable toLowerCase : jsstring -> jsstring.
Variable localeCompare : jsstring -> jsstring -> Z.

Abbreviation searchFiles := (Search.searchFiles toLowerCase localeCompare).
Abbreviation searchFilesJson :=
  (Search.searchFilesJson toLowerCase localeCompare).
Abbreviation score := (Search.getRelevanceScore toLowerCase).

Lemma applyDirectoryFilter_scoped allFiles filterDir :
  Search.applyDirectoryFilter allFiles filterDir
  = scopedSet allFiles (givenFilter filterDir).
Proof. destruct filterDir as [[|c d]|]; reflexivity. Qed.

Lemma icons_blank allFiles searchTerm filterDir :
  blankQuery searchTerm = true ->
  icons (searchFiles allFiles searchTerm filterDir)
  = sort (Search.compareDirectoryName localeCompare)
      (Search.applyDirectoryFilter allFiles filterDir)
  /\ icons (searchFilesJson allFiles searchTerm filterDir)
     = sort (Search.compareDirectoryName localeCompare)
         (Search.applyDirectoryFilter allFiles filterDir).
Proof.
  intros H. apply trim_blank in H.
  unfold Search.searchFiles, Search.searchFilesJson. rewrite H. auto.
Qed.

Lemma icons_query allFiles searchTerm filterDir :
  blankQuery searchTerm = false ->
  icons (searchFiles allFiles searchTerm filterDir)
  = sort (Search.compareRelevance toLowerCase localeCompare
            (toLowerCase searchTerm))
      (filter (Search.matchesSearch toLowerCase (toLowerCase searchTerm))
         (Search.applyDirectoryFilter allFiles filterDir))
  /\ icons (searchFilesJson allFiles searchTerm filterDir)
     = sort (Search.compareRelevanceJson toLowerCase localeCompare
               (toLowerCase searchTerm))
         (filter (Search.matchesSearch toLowerCase (toLowerCase searchTerm))
            (Search.applyDirectoryFilter allFiles filterDir)).
Proof.
  intros H. unfold Search.searchFiles, Search.searchFilesJson.
  destruct (trim searchTerm) eqn:E; [| auto].
  apply trim_blank in E. congruence.
Qed.

(** C2, amended. For a query that is empty or has a code unit that is not
    white space, every record among the returned icons has a derived
    target that contains the lower-cased query.  (A blank, non-empty query
    returns the scoped set unmatched.) *)
Theorem icons_satisfy_match_predicate
    (allFiles : list IconFile) (searchTerm : jsstring)
    (filterDir : option jsstring) (file : IconFile)
    (Hlower : toLowerCase [] = [])
    (Hquery : searchTerm = [] \/ blankQuery searchTerm = false) :
  (In file (icons (searchFiles allFiles searchTerm filterDir)) ->
   matchesSomeTarget toLowerCase (toLowerCase searchTerm) file)
  /\ (In file (icons (searchFilesJson allFiles searchTerm filterDir)) ->
      matchesSomeTarget toLowerCase (toLowerCase searchTerm) file).
Proof.
  destruct Hquery as [-> | Hq].
  - rewrite Hlower.
    assert (H : matchesSomeTarget toLowerCase [] file).
    { exists (toLowerCase (name file)). split; [left; reflexivity |].
      apply nil_substringOf. }
    auto.
  - destruct (icons_query allFiles searchTerm filterDir Hq) as [-> ->].
    rewrite !sort_In, !filter_In, matchesSearch_spec. tauto.
Qed.

Section Collation.
(** [localeCompare] as a consistent comparator: of opposite signs when its
    arguments are swapped, and transitive.  It may return 0 on strings that
    differ, as it does on canonically equivalent ones; [known] holds of
    records among whose directories it does not. *)
Hypothesis localeCompare_swap :
  forall x y, localeCompare x y < 0 <-> 0 < localeCompare y x.
Hypothesis localeCompare_trans :
  forall x y z, localeCompare x y <= 0 -> localeCompare y z <= 0 ->
                localeCompare x z <= 0.
Variable known : IconFile -> Prop.
Hypothesis known_directories :
  forall f g, known f -> known g ->
    localeCompare (directory f) (directory g) = 0 -> directory f = directory g.

Abbreviation byDirectoryName := (Search.compareDirectoryName localeCompare).

Lemma localeCompare_flip x y : 0 <= localeCompare x y -> localeCompare y x <= 0.
Proof.
  intros H. destruct (Z.ltb_spec 0 (localeCompare y x)) as [Hlt | Hle]; [| lia].
  apply localeCompare_swap in Hlt. lia.
Qed.

Lemma known_both f g :
  known f -> known g ->
  localeCompare (directory f) (directory g) <= 0 ->
  localeCompare (directory g) (directory f) <= 0 ->
  directory f = directory g.
Proof.
  intros Hf Hg Hxy Hyx. apply known_directories; auto.
  destruct (Z.ltb_spec (localeCompare (directory f) (directory g)) 0)
    as [Hlt | Hge]; [| lia].
  apply localeCompare_swap in Hlt. lia.
Qed.

Ltac compare_directories a b :=
  let E := fresh "E" in
  destruct (eqb (directory a) (directory b)) eqn:E;
  [apply eqb_eq in E | apply eqb_neq in E]; cbn [negb].

Lemma byDirectoryName_other a b :
  0 <= byDirectoryName a b -> byDirectoryName b a <= 0.
Proof.
  unfold Search.compareDirectoryName.
  compare_directories a b; compare_directories b a;
    try congruence; apply localeCompare_flip.
Qed.

Lemma byDirectoryName_trans a b c :
  known a -> known b -> known c ->
  byDirectoryName a b <= 0 -> byDirectoryName b c <= 0 ->
  byDirectoryName a c <= 0.
Proof.
  intros Ka Kb Kc. unfold Search.compareDirectoryName.
  compare_directories a b; compare_directories b c; compare_directories a c;
    try congruence; intros Hab Hbc.
  - eapply localeCompare_trans; eauto.
  - exfalso. apply E. apply known_both; auto.
    rewrite E1. exact Hbc.
  - eapply localeCompare_trans; eauto.
Qed.

Lemma byDirectoryName_spec a b :
  known a -> known b ->
  byDirectoryName a b <= 0 -> directoryThenName localeCompare a b.
Proof.
  intros Ka Kb. unfold Search.compareDirectoryName, directoryThenName.
  compare_directories a b; intros H; [right; auto | left].
  destruct (Z.eq_dec (localeCompare (directory a) (directory b)) 0) as [Hz | Hz].
  - apply known_directories in Hz; auto. contradiction.
  - lia.
Qed.

Lemma byDirectoryName_sorted (l : list IconFile) :
  Forall known l ->
  StronglySorted (fun a b => byDirectoryName a b <= 0) (sort byDirectoryName l).
Proof.
  apply (sort_sorted_on byDirectoryName
           (fun a b => byDirectoryName a b <= 0) known).
  - intros x y _ _ H. lia.
  - intros x y _ _. apply byDirectoryName_other.
  - intros x y z. apply byDirectoryName_trans.
Qed.

End Collation.


(** ** Ranking *)

Lemma relevance_sort_by_score q l :
  StronglySorted (scoreOrdered toLowerCase q)
    (sort (Search.compareRelevance toLowerCase localeCompare q) l)
  /\ StronglySorted (scoreOrdered toLowerCase q)
       (sort (Search.compareRelevanceJson toLowerCase localeCompare q) l).
Proof.
  split; apply sort_sorted; unfold scoreOrdered;
    try (intros x y z; lia);
    intros x y;
    unfold Search.compareRelevance, Search.compareRelevanceJson; cbv zeta;
    destruct (Z.eqb_spec (score q x) (score q y)) as [-> | Hne];
    cbn [negb]; lia.
Qed.

Lemma exact_score q file :
  exactMatch toLowerCase q file -> 160 - depth file <= score q file.
Proof.
  unfold exactMatch, lowerName, strippedName, Search.getRelevanceScore.
  set (fileName := toLowerCase (name file)).
  set (stripped := NodePath.name (NodePath.parse fileName)).
  intros H.
  assert (H100 : eqb fileName q || eqb stripped q = true).
  { rewrite orb_true_iff, !eqb_eq. exact H. }
  assert (H50 : startsWith fileName q || startsWith stripped q = true).
  { rewrite orb_true_iff.
    destruct H as [<- | <-]; [left | right]; apply startsWith_refl. }
  assert (H10 : includes fileName q = true).
  { destruct H as [<- | <-]; [apply includes_refl |].
    apply includes_spec, parse_name_substringOf. }
  cbv zeta. rewrite H100, H50, H10.
  destruct (includes (toLowerCase (directory file)) q); lia.
Qed.

Lemma other_score q file :
  ~ exactMatch toLowerCase q file -> score q file <= 85 - depth file.
Proof.
  unfold exactMatch, lowerName, strippedName, Search.getRelevanceScore.
  set (fileName := toLowerCase (name file)).
  set (stripped := NodePath.name (NodePath.parse fileName)).
  intros H.
  assert (H100 : eqb fileName q || eqb stripped q = false).
  { apply not_true_is_false. rewrite orb_true_iff, !eqb_eq. exact H. }
  cbv zeta. rewrite H100.
  destruct (startsWith fileName q || startsWith stripped q),
           (includes (toLowerCase (directory file)) q),
           (includes fileName q); lia.
Qed.

(** C5, amended. For a query that is not blank, a record that matches the
    lower-cased query exactly comes before every returned record that does
    not, whenever its depth exceeds the other record's depth by less than
    75; depths written by the indexers lie between 0 and 10. *)
Theorem exact_match_ranks_before_others
    (allFiles : list IconFile) (searchTerm : jsstring)
    (filterDir : option jsstring) (result : list IconFile)
    (i j : nat) (exact other : IconFile)
    (Hresult : result = icons (searchFiles allFiles searchTerm filterDir)
               \/ result = icons (searchFilesJson allFiles searchTerm filterDir))
    (Hquery : blankQuery searchTerm = false)
    (Hi : nth_error result i = Some exact)
    (Hj : nth_error result j = Some other)
    (Hexact : exactMatch toLowerCase (toLowerCase searchTerm) exact)
    (Hother : ~ exactMatch toLowerCase (toLowerCase searchTerm) other)
    (Hdepth : depth exact - depth other < 75) :
  (i < j)%nat.
Proof.
  set (q := toLowerCase searchTerm) in *.
  assert (Hsorted : StronglySorted (scoreOrdered toLowerCase q) result).
  { destruct (icons_query allFiles searchTerm filterDir Hquery) as [E1 E2].
    destruct Hresult as [-> | ->]; [rewrite E1 | rewrite E2];
      apply relevance_sort_by_score. }
  pose proof (exact_score q exact Hexact) as He.
  pose proof (other_score q other Hother) as Ho.
  destruct (Nat.lt_total i j) as [Hlt | [Heq | Hgt]]; [exact Hlt | |].
  - subst j. rewrite Hi in Hj. inversion Hj; subst. contradiction.
  - pose proof (StronglySorted_nth _ _ Hsorted j i other exact Hgt Hj Hi) as H.
    unfold scoreOrdered in H. lia.
Qed.

End Icons.

(** ** Reasoning about the effectful loops *)

Section EffFacts.
Context {A : Type}.
Variable Q : A -> Prop.

Lemma grows_ret {B} (b : B) : grows Q (Eff.ret b).
Proof.
  intros s o s' H. inversion H; subst. exists []. rewrite app_nil_r. auto.
Qed.

Lemma grows_push (xs : list A) : Forall Q xs -> grows Q (push xs).
Proof. intros Hxs s o s' H. inversion H; subst. eauto. Qed.

Lemma grows_bind {B C} (c : eff (list A) B) (k : B -> eff (list A) C) :
  grows Q c -> (forall b, grows Q (k b)) -> grows Q (Eff.bind c k).
Proof.
  intros Hc Hk s o s'. unfold Eff.bind.
  destruct (c s) as [[b | e] s1] eqn:E; intros H.
  - destruct (Hc _ _ _ E) as [n1 [-> H1]].
    destruct (Hk b _ _ _ H) as [n2 [-> H2]].
    exists (n1 ++ n2). rewrite app_assoc. split; [auto | apply Forall_app; auto].
  - inversion H; subst. eauto.
Qed.

Lemma grows_await_bind {B C} (o : outcome B) (k : B -> eff (list A) C) :
  (forall b, o = Returns b -> grows Q (k b)) -> grows Q (Eff.bind (await o) k).
Proof.
  intros Hk s r s'. unfold Eff.bind, await. destruct o as [b | e]; intros H.
  - eapply Hk; eauto.
  - inversion H; subst. exists []. rewrite app_nil_r. auto.
Qed.

Lemma grows_tryCatch {B} (c : eff (list A) B) (h : error -> eff (list A) B) :
  grows Q c -> (forall e, grows Q (h e)) -> grows Q (tryCatch c h).
Proof.
  intros Hc Hh s o s'. unfold tryCatch.
  destruct (c s) as [[b | e] s1] eqn:E; intros H.
  - inversion H; subst. eauto.
  - destruct (Hc _ _ _ E) as [n1 [-> H1]].
    destruct (Hh e _ _ _ H) as [n2 [-> H2]].
    exists (n1 ++ n2). rewrite app_assoc. split; [auto | apply Forall_app; auto].
Qed.

Lemma grows_forOf {X} (body : X -> eff (list A) unit) (l : list X) :
  Forall (fun x => grows Q (body x)) l -> grows Q (forOf body l).
Proof.
  induction 1 as [|x l Hx Hl IH]; [apply (grows_ret tt) |].
  intros s o s'. cbn [forOf].
  destruct (body x s) as [[b | e] s1] eqn:E; intros H.
  - destruct (Hx _ _ _ E) as [n1 [-> H1]].
    destruct (IH _ _ _ H) as [n2 [-> H2]].
    exists (n1 ++ n2). rewrite app_assoc. split; [auto | apply Forall_app; auto].
  - inversion H; subst. eauto.
Qed.

Lemma returningFiles_grows (c : eff (list A) unit) (files : list A) :
  grows Q c -> returningFiles c = Returns files -> Forall Q files.
Proof.
  intros Hc. unfold returningFiles.
  destruct (c []) as [[b | e] s1] eqn:E; [| discriminate].
  intros H; inversion H; subst.
  destruct (Hc _ _ _ E) as [new [-> Hnew]]. exact Hnew.
Qed.

Lemma grows_weaken (Q' : A -> Prop) {B} (c : eff (list A) B) :
  (forall a, Q' a -> Q a) -> grows Q' c -> grows Q c.
Proof.
  intros HQ Hc s o s' H. destruct (Hc _ _ _ H) as [new [-> Hn]].
  exists new. split; [auto | eapply Forall_impl; eauto].
Qed.

End EffFacts.

Lemma noThrow_tryCatch {S B} (c : eff S B) (h : error -> eff S B) :
  (forall e, noThrow (h e)) -> noThrow (tryCatch c h).
Proof.
  intros Hh s. unfold tryCatch. destruct (c s) as [[b | e] s1]; [eauto |].
  apply Hh.
Qed.

Lemma noThrow_ret {S B} (b : B) : noThrow (@Eff.ret S B b).
Proof. intros s. unfold Eff.ret. eauto. Qed.

Lemma returningFiles_noThrow {A} (c : eff (list A) unit) :
  noThrow c -> exists files, returningFiles c = Returns files.
Proof.
  intros Hc. unfold returningFiles. destruct (Hc []) as [b [s' ->]]. eauto.
Qed.

Lemma runAsync_noThrow {B} (c : eff unit B) :
  noThrow c -> exists b, Entry.runAsync c = Returns b.
Proof.
  intros Hc. unfold Entry.runAsync. destruct (Hc tt) as [b [s' ->]].
  exists b. reflexivity.
Qed.

(** ** What the two traversals produce *)

Lemma produced_step recordOf okDir maxDepth relDir d n f :
  okDir n = true ->
  produced recordOf okDir maxDepth (relativeOf relDir n) (d + 1) f ->
  produced recordOf okDir maxDepth relDir d f.
Proof.
  intros Hn [segs [m [stats [Hsegs [Hm [Hd ->]]]]]].
  exists (n :: segs), m, stats. cbn [forallb List.length extendRel fold_left].
  rewrite Hn, Hsegs.
  replace (d + Z.of_nat (S (List.length segs)))
    with (d + 1 + Z.of_nat (List.length segs)) by lia.
  auto.
Qed.

Section Traversals.
Variable toLowerCase : jsstring -> jsstring.
Variable maxDepth : Z.

Abbreviation routeProduced :=
  (produced (Route.fileRecord) routeDir maxDepth).
Abbreviation scriptProduced :=
  (produced scriptRecord validName maxDepth).

Lemma route_visitEntry_grows (entry : dirent) :
  validEntry entry = true ->
  forall relDir d, d <= maxDepth ->
    grows (routeProduced relDir d)
      (Route.visitEntry toLowerCase maxDepth relDir d entry).
Proof.
  induction entry as [n stat | n stat | n e | n entries IH]
    using dirent_tree_ind; cbn [validEntry Route.visitEntry];
    intros Hvalid relDir d Hd.
  - destruct (existsb _ supportedFormats); [| apply grows_ret].
    apply grows_tryCatch; [| intros; apply grows_ret].
    apply grows_await_bind. intros stats _. apply grows_push.
    constructor; [| constructor].
    exists [], n, stats. cbn. rewrite Z.add_0_r. auto.
  - apply grows_ret.
  - apply andb_true_iff in Hvalid. destruct Hvalid as [Hn _].
    fold (skipped n). destruct (skipped n) eqn:Hskip; [apply grows_ret |].
    apply grows_await_bind. intros files Hfiles. apply grows_push.
    unfold Route.getAllFilesWith in Hfiles.
    destruct (d + 1 >? maxDepth).
    + inversion Hfiles; subst. constructor.
    + apply (returningFiles_grows (routeProduced relDir d)) in Hfiles; auto.
      apply grows_tryCatch; [| intros; apply grows_ret].
      intros s o s' H. inversion H; subst. exists []. rewrite app_nil_r. auto.
  - apply andb_true_iff in Hvalid. destruct Hvalid as [Hn Hentries].
    fold (skipped n). destruct (skipped n) eqn:Hskip; [apply grows_ret |].
    assert (Hdir : routeDir n = true).
    { unfold routeDir. rewrite Hn, Hskip. reflexivity. }
    apply grows_await_bind. intros files Hfiles. apply grows_push.
    unfold Route.getAllFilesWith in Hfiles.
    destruct (Z.gtb_spec (d + 1) maxDepth) as [Hgt | Hle].
    + inversion Hfiles; subst. constructor.
    + apply (returningFiles_grows (routeProduced relDir d)) in Hfiles; auto.
      apply grows_tryCatch; [| intros; apply grows_ret].
      apply grows_forOf. rewrite forallb_forall in Hentries.
      rewrite Forall_forall in IH |- *. intros x Hx.
      eapply grows_weaken; [| apply IH; auto].
      intros f. apply produced_step, Hdir.
Qed.

Lemma script_visitFile_grows relDir d n stat :
  validName n = true -> d <= maxDepth ->
  grows (scriptProduced relDir d)
    (Script.visitFile toLowerCase relDir d n stat).
Proof.
  intros Hn Hd. unfold Script.visitFile. cbv zeta.
  destruct (negb _); [apply grows_ret |].
  apply grows_await_bind. intros stats _. apply grows_push.
  constructor; [| constructor].
  exists [], n, stats. cbn. rewrite Z.add_0_r. auto.
Qed.

Lemma script_visitEntry_grows (entry : dirent) :
  validEntry entry = true ->
  forall relDir d, d <= maxDepth ->
    grows (scriptProduced relDir d)
      (Script.visitEntry toLowerCase maxDepth relDir d entry).
Proof.
  induction entry as [n stat | n stat | n e | n entries IH]
    using dirent_tree_ind; cbn [validEntry Script.visitEntry];
    intros Hvalid relDir d Hd;
    try (apply script_visitFile_grows; assumption).
  - apply grows_await_bind. intros files Hfiles. apply grows_push.
    unfold Script.getAllIconFilesWith in Hfiles.
    destruct (d + 1 >? maxDepth); [inversion Hfiles; subst; constructor |].
    unfold returningFiles in Hfiles. discriminate.
  - apply andb_true_iff in Hvalid. destruct Hvalid as [Hn Hentries].
    apply grows_await_bind. intros files Hfiles. apply grows_push.
    unfold Script.getAllIconFilesWith in Hfiles.
    destruct (Z.gtb_spec (d + 1) maxDepth) as [Hgt | Hle].
    + inversion Hfiles; subst. constructor.
    + apply (returningFiles_grows (scriptProduced relDir d)) in Hfiles; auto.
      apply grows_forOf. rewrite forallb_forall in Hentries.
      rewrite Forall_forall in IH |- *. intros x Hx.
      eapply grows_weaken; [| apply IH; auto].
      intros f. apply produced_step, Hn.
Qed.

(** Every record the route's traversal returns was produced by descending
    from the root through directories it accepts. *)
Lemma route_records_produced (tree : list dirent) (files : list IconFile) :
  forallb validEntry tree = true ->
  Route.getAllFilesRecursively toLowerCase maxDepth (Returns tree) [] 0
    = Returns files ->
  Forall (routeProduced [] 0) files.
Proof.
  intros Hvalid. unfold Route.getAllFilesRecursively, Route.getAllFilesWith.
  destruct (Z.gtb_spec 0 maxDepth) as [Hgt | Hle]; intros Hfiles.
  - inversion Hfiles; subst. constructor.
  - eapply returningFiles_grows; [| exact Hfiles].
    apply grows_tryCatch; [| intros; apply grows_ret].
    apply grows_forOf. rewrite forallb_forall in Hvalid.
    rewrite Forall_forall. intros x Hx. apply route_visitEntry_grows; auto.
Qed.

Lemma script_records_produced (tree : list dirent) (files : list IconFile) :
  forallb validEntry tree = true ->
  Script.getAllIconFiles toLowerCase maxDepth (Returns tree) [] 0
    = Returns files ->
  Forall (scriptProduced [] 0) files.
Proof.
  intros Hvalid. unfold Script.getAllIconFiles, Script.getAllIconFilesWith.
  destruct (Z.gtb_spec 0 maxDepth) as [Hgt | Hle]; intros Hfiles.
  - inversion Hfiles; subst. constructor.
  - eapply returningFiles_grows; [| exact Hfiles].
    apply grows_forOf. rewrite forallb_forall in Hvalid.
    rewrite Forall_forall. intros x Hx. apply script_visitEntry_grows; auto.
Qed.

(** The route's traversal catches whatever is thrown while it lists a
    directory, so it always returns. *)
Lemma route_traversal_returns listing relDir d :
  exists files,
    Route.getAllFilesRecursively toLowerCase maxDepth listing relDir d
    = Returns files.
Proof.
  unfold Route.getAllFilesRecursively, Route.getAllFilesWith.
  destruct (d >? maxDepth); [eauto |].
  apply returningFiles_noThrow, noThrow_tryCatch. intros e. apply noThrow_ret.
Qed.

End Traversals.

(** ** Relative paths of well-formed trees *)

Lemma validName_chars (n : jsstring) :
  validName n = true ->
  n <> [] /\ ~ In 47%N n /\ ~ In 92%N n.
Proof.
  unfold validName. destruct n as [|c n]; [discriminate |].
  intros H. rewrite forallb_forall in H. split; [discriminate |].
  split; intros Hin; apply H in Hin; cbn in Hin; discriminate.
Qed.

Lemma replaceBackslashes_id (s : jsstring) :
  ~ In 92%N s -> replaceBackslashes s = s.
Proof.
  unfold replaceBackslashes. induction s as [|c s IH]; intros H; simpl; auto.
  destruct (N.eqb_spec c 92) as [-> | Hc]; [exfalso; apply H; left; auto |].
  rewrite IH; [reflexivity |]. intros Hin. apply H. right; auto.
Qed.

Lemma countSeparators_app (a b : jsstring) :
  countSeparators (a ++ b) = countSeparators a + countSeparators b.
Proof.
  unfold countSeparators. rewrite filter_app, length_app. lia.
Qed.

Lemma countSeparators_none (s : jsstring) :
  ~ In 47%N s -> countSeparators s = 0.
Proof.
  unfold countSeparators, NodePath.CHAR_FORWARD_SLASH.
  induction s as [|c s IH]; intros H; [reflexivity |].
  cbn [filter]. destruct (N.eqb_spec 47 c) as [<- | Hc].
  - exfalso. apply H. left; auto.
  - apply IH. intros Hin. apply H. right; auto.
Qed.

Lemma relativeOf_clean relDir n :
  validName n = true -> ~ In 92%N relDir -> ~ In 92%N (relativeOf relDir n).
Proof.
  intros Hn Hrel. destruct (validName_chars n Hn) as [_ [_ Hn92]].
  unfold relativeOf. destruct relDir as [|c r]; [exact Hn92 |].
  rewrite !in_app_iff. intros [H | [H | H]]; auto.
  destruct H as [H | []]. discriminate.
Qed.

Lemma relativeOf_separators relDir n :
  validName n = true ->
  countSeparators (relativeOf relDir n) = pathDepth relDir.
Proof.
  intros Hn. destruct (validName_chars n Hn) as [_ [Hn47 _]].
  unfold relativeOf, pathDepth. destruct relDir as [|c r].
  - apply countSeparators_none, Hn47.
  - rewrite !countSeparators_app, (countSeparators_none n Hn47).
    change (countSeparators [NodePath.CHAR_FORWARD_SLASH]) with 1. lia.
Qed.

Lemma relativeOf_depth relDir n :
  validName n = true -> pathDepth (relativeOf relDir n) = pathDepth relDir + 1.
Proof.
  intros Hn. pose proof (relativeOf_separators relDir n Hn) as H.
  destruct (validName_chars n Hn) as [Hne _].
  unfold pathDepth at 1. destruct (relativeOf relDir n) eqn:E.
  - unfold relativeOf in E. destruct relDir; [contradiction |].
    destruct (app_eq_nil _ _ E). discriminate.
  - lia.
Qed.

Lemma extendRel_depth (segs : list jsstring) (relDir : jsstring) :
  forallb validName segs = true -> ~ In 92%N relDir ->
  ~ In 92%N (extendRel relDir segs)
  /\ pathDepth (extendRel relDir segs)
     = pathDepth relDir + Z.of_nat (List.length segs).
Proof.
  revert relDir. induction segs as [|n segs IH]; intros relDir Hsegs Hrel.
  - cbn. split; [auto | lia].
  - cbn [forallb] in Hsegs. apply andb_true_iff in Hsegs.
    destruct Hsegs as [Hn Hsegs]. cbn [extendRel fold_left List.length].
    destruct (IH (relativeOf relDir n) Hsegs (relativeOf_clean _ _ Hn Hrel))
      as [H1 H2].
    split; [exact H1 |]. unfold extendRel in H2. rewrite H2.
    rewrite relativeOf_depth by exact Hn. lia.
Qed.

Lemma routeDir_valid (segs : list jsstring) :
  forallb routeDir segs = true -> forallb validName segs = true.
Proof.
  rewrite !forallb_forall. intros H n Hn. specialize (H n Hn).
  unfold routeDir in H. apply andb_true_iff in H. tauto.
Qed.

(** The relative path of a produced record has as many separators as the
    record is deep. *)
Lemma produced_relativePath_depth (segs : list jsstring) (n : jsstring) :
  forallb validName segs = true -> validName n = true ->
  countSeparators (replaceBackslashes (relativeOf (extendRel [] segs) n))
  = 0 + Z.of_nat (List.length segs).
Proof.
  intros Hsegs Hn.
  destruct (extendRel_depth segs [] Hsegs (@in_nil _ _)) as [Hclean Hdepth].
  rewrite replaceBackslashes_id by (apply relativeOf_clean; assumption).
  rewrite relativeOf_separators by exact Hn. rewrite Hdepth. reflexivity.
Qed.

(** C8, amended. In a tree whose entry names are non-empty and contain no
    separator character, every record returned by either traversal has a
    depth equal to the number of separators in its relative path (so 0 for a
    file directly under the root). *)
Theorem depth_counts_separators
    (toLowerCase : jsstring -> jsstring) (maxDepth : Z)
    (tree : list dirent) (files : list IconFile) (file : IconFile)
    (Hvalid : forallb validEntry tree = true)
    (Hfiles :
       Route.getAllFilesRecursively toLowerCase maxDepth (Returns tree) [] 0
         = Returns files
       \/ Script.getAllIconFiles toLowerCase maxDepth (Returns tree) [] 0
            = Returns files)
    (Hin : In file files) :
  depth file = countSeparators (relativePath file).
Proof.
  destruct Hfiles as [Hfiles | Hfiles].
  - apply route_records_produced in Hfiles; [| exact Hvalid].
    rewrite Forall_forall in Hfiles.
    destruct (Hfiles file Hin) as [segs [n [stats [Hsegs [Hn [_ ->]]]]]].
    cbn [depth relativePath Route.fileRecord].
    symmetry. apply produced_relativePath_depth; [apply routeDir_valid |]; auto.
  - apply script_records_produced in Hfiles; [| exact Hvalid].
    rewrite Forall_forall in Hfiles.
    destruct (Hfiles file Hin) as [segs [n [stats [Hsegs [Hn [_ ->]]]]]].
    cbn [depth relativePath scriptRecord Script.fileRecord].
    symmetry. apply produced_relativePath_depth; auto.
Qed.

(** X17. Depths written by either traversal lie between 0 and the maximum. *)
Lemma depth_within_bounds
    (toLowerCase : jsstring -> jsstring) (maxDepth : Z)
    (tree : list dirent) (files : list IconFile) (file : IconFile) :
  forallb validEntry tree = true ->
  Route.getAllFilesRecursively toLowerCase maxDepth (Returns tree) [] 0
    = Returns files
  \/ Script.getAllIconFiles toLowerCase maxDepth (Returns tree) [] 0
       = Returns files ->
  In file files -> 0 <= depth file <= maxDepth.
Proof.
  intros Hvalid [Hfiles | Hfiles] Hin.
  - apply route_records_produced in Hfiles; [| exact Hvalid].
    rewrite Forall_forall in Hfiles.
    destruct (Hfiles file Hin) as [segs [n [stats [_ [_ [Hd ->]]]]]].
    cbn [depth Route.fileRecord]. lia.
  - apply script_records_produced in Hfiles; [| exact Hvalid].
    rewrite Forall_forall in Hfiles.
    destruct (Hfiles file Hin) as [segs [n [stats [_ [_ [Hd ->]]]]]].
    cbn [depth scriptRecord Script.fileRecord]. lia.
Qed.

(** ** [dirname] and [split] on relative paths *)

Lemma dirnameLoop_no_separator (p : jsstring) (k : nat) (m : bool) :
  ~ In 47%N p -> (k <= List.length p)%nat -> NodePath.dirnameLoop p k m = -1.
Proof.
  intros Hp. revert m. induction k as [|i IH]; intros m Hk; [reflexivity |].
  cbn [NodePath.dirnameLoop]. destruct (i <? 1)%nat; [reflexivity |].
  unfold charCodeAt, NodePath.CHAR_FORWARD_SLASH.
  destruct (N.eqb_spec (nth i p 0%N) 47) as [E | _].
  - exfalso. apply Hp. rewrite <- E. apply nth_In. lia.
  - apply IH. lia.
Qed.

Lemma dirnameLoop_last_separator (pre n : jsstring) (k : nat) (m : bool) :
  ~ In 47%N n -> pre <> [] -> (k <= List.length n)%nat ->
  (k = 0%nat -> m = false) ->
  NodePath.dirnameLoop (pre ++ [47%N] ++ n) (List.length pre + 1 + k) m
  = Z.of_nat (List.length pre).
Proof.
  intros Hn Hpre. revert m. induction k as [|i IH]; intros m Hk Hm.
  - rewrite Nat.add_0_r, Nat.add_1_r. cbn [NodePath.dirnameLoop].
    destruct (Nat.ltb_spec (List.length pre) 1) as [Hlt | _].
    + destruct pre; [contradiction | simpl in Hlt; lia].
    + unfold charCodeAt. rewrite app_nth2, Nat.sub_diag by lia.
      cbn. rewrite (Hm eq_refl). reflexivity.
  - replace (List.length pre + 1 + S i)%nat
      with (S (List.length pre + 1 + i)) by lia.
    cbn [NodePath.dirnameLoop].
    destruct (Nat.ltb_spec (List.length pre + 1 + i) 1) as [Hlt | _]; [lia |].
    unfold charCodeAt, NodePath.CHAR_FORWARD_SLASH.
    rewrite app_nth2 by lia.
    replace (List.length pre + 1 + i - List.length pre)%nat with (S i) by lia.
    cbn [app nth].
    destruct (N.eqb_spec (nth i n 0%N) 47) as [E | _].
    + exfalso. apply Hn. rewrite <- E. apply nth_In. lia.
    + apply IH; [lia | reflexivity].
Qed.

Lemma dirname_of_name (n : jsstring) :
  validName n = true -> NodePath.dirname n = lit ".".
Proof.
  intros Hn. destruct (validName_chars n Hn) as [Hne [H47 _]].
  unfold NodePath.dirname. destruct n as [|c n]; [contradiction |].
  rewrite dirnameLoop_no_separator by auto.
  destruct (N.eqb_spec c NodePath.CHAR_FORWARD_SLASH) as [-> | _].
  - exfalso. apply H47. left. reflexivity.
  - reflexivity.
Qed.

Lemma dirname_relativeOf (relDir n : jsstring) :
  validName n = true -> relDir <> [] -> hd 0%N relDir <> 47%N ->
  NodePath.dirname (relativeOf relDir n) = relDir.
Proof.
  intros Hn Hne Hhd. destruct (validName_chars n Hn) as [Hnn [H47 _]].
  assert (E : relativeOf relDir n = relDir ++ [47%N] ++ n).
  { unfold relativeOf. destruct relDir; [contradiction | reflexivity]. }
  rewrite E. remember (relDir ++ [47%N] ++ n) as p eqn:Ep.
  destruct p as [|c0 rest].
  { symmetry in Ep. destruct (app_eq_nil _ _ Ep). contradiction. }
  assert (Hroot : N.eqb c0 NodePath.CHAR_FORWARD_SLASH = false).
  { apply N.eqb_neq. destruct relDir as [|c r]; [contradiction |].
    cbn in Ep. inversion Ep; subst. exact Hhd. }
  unfold NodePath.dirname. rewrite Hroot, Ep. cbn [andb].
  replace (List.length (relDir ++ [47%N] ++ n))
    with (List.length relDir + 1 + List.length n)%nat
    by (rewrite !length_app; cbn; lia).
  rewrite (dirnameLoop_last_separator relDir n); auto.
  2: { intros Hz. destruct n; [contradiction | discriminate]. }
  destruct (Z.eqb_spec (Z.of_nat (List.length relDir)) (-1)) as [Hm | _]; [lia |].
  unfold slice. rewrite Nat2Z.id, Nat.sub_0_r. cbn [skipn].
  rewrite firstn_app, Nat.sub_diag, firstn_all. cbn. apply app_nil_r.
Qed.

Lemma split_aux_no_separator (sep : N) (s : jsstring) :
  ~ In sep s -> split_aux sep s = (s, []).
Proof.
  induction s as [|c s IH]; intros H; [reflexivity |].
  cbn [split_aux]. rewrite IH by (intros Hin; apply H; right; auto).
  destruct (N.eqb_spec c sep) as [-> | _]; [| reflexivity].
  exfalso. apply H. left; reflexivity.
Qed.

Lemma split_no_separator (sep : N) (s : jsstring) :
  ~ In sep s -> split sep s = [s].
Proof. intros H. unfold split. rewrite split_aux_no_separator; auto. Qed.

Lemma split_app (sep : N) (a b : jsstring) :
  split sep (a ++ sep :: b) = split sep a ++ split sep b.
Proof.
  unfold split. induction a as [|c a IH].
  - cbn [app split_aux]. rewrite N.eqb_refl.
    destruct (split_aux sep b) as [t ts]. reflexivity.
  - cbn [app split_aux].
    destruct (split_aux sep (a ++ sep :: b)) as [t ts].
    destruct (split_aux sep a) as [t' ts'].
    destruct (split_aux sep b) as [tb tsb].
    cbn in IH. inversion IH; subst.
    destruct (N.eqb c sep); reflexivity.
Qed.

Lemma split_extendRel (segs : list jsstring) (relDir : jsstring) :
  forallb validName segs = true -> relDir <> [] ->
  split 47 (extendRel relDir segs) = split 47 relDir ++ segs
  /\ extendRel relDir segs <> []
  /\ hd 0%N (extendRel relDir segs) = hd 0%N relDir.
Proof.
  revert relDir. induction segs as [|n segs IH]; intros relDir Hsegs Hne.
  - cbn. rewrite app_nil_r. auto.
  - cbn [forallb] in Hsegs. apply andb_true_iff in Hsegs.
    destruct Hsegs as [Hn Hsegs]. cbn [extendRel fold_left].
    destruct (validName_chars n Hn) as [_ [H47 _]].
    assert (E : relativeOf relDir n = relDir ++ 47%N :: n).
    { unfold relativeOf. destruct relDir; [contradiction | reflexivity]. }
    assert (Hne' : relativeOf relDir n <> []).
    { rewrite E. destruct relDir; [contradiction | discriminate]. }
    destruct (IH _ Hsegs Hne') as [H1 [H2 H3]].
    unfold extendRel in *. split; [| split].
    + rewrite H1, E, split_app, (split_no_separator 47 n H47), <- app_assoc.
      reflexivity.
    + exact H2.
    + rewrite H3, E. destruct relDir; [contradiction | reflexivity].
Qed.

(** The [directory] field of a record produced below the root: the
    sentinel for a file directly under the root, otherwise the chain of
    directories joined by separators. *)
Lemma route_directory_segments (segs : list jsstring) (d : Z)
    (n : jsstring) (stats : Stats) (seg : jsstring) :
  forallb validName segs = true -> validName n = true ->
  In seg (split 47 (directory (Route.fileRecord (extendRel [] segs) d n stats))) ->
  seg = lit "root" \/ In seg segs.
Proof.
  intros Hsegs Hn. cbn [directory Route.fileRecord].
  destruct segs as [|s segs].
  - cbn [extendRel fold_left]. unfold relativeOf at 1.
    rewrite dirname_of_name by exact Hn. rewrite eqb_refl.
    intros [<- | []]. left; reflexivity.
  - cbn [forallb] in Hsegs. apply andb_true_iff in Hsegs.
    destruct Hsegs as [Hs Hsegs].
    destruct (validName_chars s Hs) as [Hsne [Hs47 Hs92]].
    cbn [extendRel fold_left]. change (relativeOf [] s) with s.
    destruct (split_extendRel segs s Hsegs Hsne) as [Hsplit [Hne Hhd]].
    destruct (extendRel_depth segs s Hsegs Hs92) as [Hclean _].
    fold (extendRel s segs).
    rewrite dirname_relativeOf; auto.
    2: { rewrite Hhd. destruct s as [|c s']; [contradiction |].
         cbn. intros ->. apply Hs47. left; reflexivity. }
    destruct (eqb (extendRel s segs) (lit ".")).
    + intros [<- | []]. left; reflexivity.
    + rewrite replaceBackslashes_id by exact Hclean.
      rewrite Hsplit, (split_no_separator 47 s Hs47). right. exact H.
Qed.

(** ** The guards of the two traversals *)

(** X16. In a well-formed tree the route never files a record under a hidden
    directory or under [node_modules]. *)
Lemma route_skips_hidden_directories
    (toLowerCase : jsstring -> jsstring) (maxDepth : Z)
    (tree : list dirent) (files : list IconFile) (file : IconFile)
    (seg : jsstring) :
  forallb validEntry tree = true ->
  Route.getAllFilesRecursively toLowerCase maxDepth (Returns tree) [] 0
    = Returns files ->
  In file files -> In seg (split 47 (directory file)) ->
  skipped seg = false.
Proof.
  intros Hvalid Hfiles Hin Hseg.
  apply route_records_produced in Hfiles; [| exact Hvalid].
  rewrite Forall_forall in Hfiles.
  destruct (Hfiles file Hin) as [segs [n [stats [Hsegs [Hn [_ ->]]]]]].
  apply route_directory_segments in Hseg; [| apply routeDir_valid |]; auto.
  destruct Hseg as [-> | Hseg]; [reflexivity |].
  rewrite forallb_forall in Hsegs. specialize (Hsegs seg Hseg).
  unfold routeDir in Hsegs. apply andb_true_iff in Hsegs.
  destruct Hsegs as [_ H]. apply negb_true_iff in H. exact H.
Qed.

(** The script prefixes every path with the mount point of the icons. *)
Lemma script_paths_begin_with_mount
    (toLowerCase : jsstring -> jsstring) (maxDepth : Z)
    (tree : list dirent) (files : list IconFile) (file : IconFile) :
  forallb validEntry tree = true ->
  Script.getAllIconFiles toLowerCase maxDepth (Returns tree) [] 0
    = Returns files ->
  In file files -> prefixOf (lit "/icons/") (path file).
Proof.
  intros Hvalid Hfiles Hin.
  apply script_records_produced in Hfiles; [| exact Hvalid].
  rewrite Forall_forall in Hfiles.
  destruct (Hfiles file Hin) as [segs [n [stats [_ [_ [_ ->]]]]]].
  cbn [path scriptRecord Script.fileRecord]. eexists. reflexivity.
Qed.

(** C7. The route's traversal of a root holding the single image [a.svg]
    returns one record whose [path] is [a.svg]: it does not begin with a
    separator, let alone with the mount prefix the script writes. *)
Theorem route_path_lacks_mount_prefix :
  Route.getAllFilesRecursively asciiLower 10 (Returns Samples.flatTree) [] 0
    = Returns [Samples.flatRecord]
  /\ path Samples.flatRecord = lit "a.svg"
  /\ startsWith (path Samples.flatRecord) (lit "/") = false
  /\ Script.getAllIconFiles asciiLower 10 (Returns Samples.flatTree) [] 0
     = Returns [mkIconFile (lit "a.svg") (lit "/icons/a.svg") (lit "a.svg")
                  (lit ".") (Some 512) (Some 1700000000) 0].
Proof. repeat split; vm_compute; reflexivity. Qed.

(** C9. The script's traversal enters a directory named [.git] and files
    the image inside it, under the directory [.git]; the route's traversal
    of the same tree returns nothing. *)
Theorem script_indexes_hidden_directory :
  Script.getAllIconFiles asciiLower 10 (Returns Samples.hiddenTree) [] 0
    = Returns [Samples.hiddenRecord]
  /\ directory Samples.hiddenRecord = lit ".git"
  /\ skipped (directory Samples.hiddenRecord) = true
  /\ Route.getAllFilesRecursively asciiLower 10 (Returns Samples.hiddenTree) [] 0
     = Returns [].
Proof. repeat split; vm_compute; reflexivity. Qed.

(** ** The entry points *)

Section EntryFacts.
Variable toLowerCase : jsstring -> jsstring.
Variable localeCompare : jsstring -> jsstring -> Z.

Abbreviation searchIconFiles :=
  (Entry.searchIconFiles toLowerCase localeCompare).
Abbreviation searchIconFilesJson :=
  (Entry.searchIconFilesJson toLowerCase localeCompare).

Lemma searchFiles_no_records searchTerm filterDir :
  Search.searchFiles toLowerCase localeCompare [] searchTerm filterDir
  = emptyOutcome.
Proof.
  unfold Search.searchFiles, Search.applyDirectoryFilter.
  destruct (trim searchTerm); destruct filterDir as [[|c d]|]; reflexivity.
Qed.

(** With an accessible root the route searches what the traversal found. *)
Lemma searchIconFiles_accessible fsys searchTerm directory_ filterDir :
  access (fsys directory_) = Returns tt ->
  exists allFiles,
    Route.getAllFilesRecursively toLowerCase 10
      (readdir (fsys directory_)) [] 0 = Returns allFiles
    /\ searchIconFiles fsys searchTerm directory_ filterDir
       = Returns (Search.searchFiles toLowerCase localeCompare
                    allFiles searchTerm filterDir).
Proof.
  intros Hacc.
  destruct (route_traversal_returns toLowerCase 10
              (readdir (fsys directory_)) [] 0) as [allFiles Hall].
  exists allFiles. split; [exact Hall |].
  unfold Entry.searchIconFiles, Entry.runAsync, tryCatch, Eff.bind, await,
    Eff.ret. rewrite Hacc, Hall. reflexivity.
Qed.

(** C6. [searchIconFiles] returns for every file system and every input;
    when the root cannot be accessed, or cannot be listed, it returns the
    empty result.  The variant that loads the snapshot returns as well, with
    the empty result when the file cannot be read or parsed. *)
Theorem search_entry_points_never_throw
    (fsys : jsstring -> rootdir) (searchTerm directory_ : jsstring)
    (filterDir : option jsstring) (e : error)
    (listing : outcome (list dirent))
    (readFile : jsstring -> outcome jsstring)
    (JSON_parse : jsstring -> outcome (list IconFile))
    (jsonFile raw : jsstring) :
  (exists r, searchIconFiles fsys searchTerm directory_ filterDir = Returns r)
  /\ searchIconFiles (fun _ => mkRoot (Throws e) listing)
       searchTerm directory_ filterDir = Returns emptyOutcome
  /\ searchIconFiles (fun _ => mkRoot (Returns tt) (Throws e))
       searchTerm directory_ filterDir = Returns emptyOutcome
  /\ (exists r, searchIconFilesJson readFile JSON_parse
                  searchTerm jsonFile filterDir = Returns r)
  /\ searchIconFilesJson (fun _ => Throws e) JSON_parse
       searchTerm jsonFile filterDir = Returns emptyOutcome
  /\ searchIconFilesJson (fun _ => Returns raw) (fun _ => Throws e)
       searchTerm jsonFile filterDir = Returns emptyOutcome.
Proof.
  split; [| split; [| split; [| split; [| split]]]].
  - apply runAsync_noThrow, noThrow_tryCatch. intros; apply noThrow_ret.
  - reflexivity.
  - unfold Entry.searchIconFiles, Entry.runAsync, tryCatch, Eff.bind, await,
      Eff.ret. cbn. rewrite searchFiles_no_records. reflexivity.
  - apply runAsync_noThrow, noThrow_tryCatch. intros; apply noThrow_ret.
  - reflexivity.
  - reflexivity.
Qed.

End EntryFacts.

(** ** Runs on concrete inputs *)

(** A blank query returns records that no target matches. *)
Lemma blank_query_returns_unmatched_record :
  ~ (forall (allFiles : list IconFile) (searchTerm : jsstring)
            (filterDir : option jsstring) (file : IconFile),
       In file (icons (Search.searchFiles asciiLower defaultCompare
                         allFiles searchTerm filterDir)) ->
       matchesSomeTarget asciiLower (asciiLower searchTerm) file).
Proof.
  intros H.
  specialize (H [Samples.ec2] (lit " ") None Samples.ec2 (or_introl eq_refl)).
  apply matchesSearch_spec in H. vm_compute in H. discriminate.
Qed.

Lemma icons_satisfy_match_predicate_witness :
  asciiLower [] = []
  /\ (lit "Lambda" = [] \/ blankQuery (lit "Lambda") = false)
  /\ ((In (Samples.icon "lambda.svg" "root" "lambda.svg" 0)
         (icons (Search.searchFiles asciiLower defaultCompare
                   Samples.lambdaRecords (lit "Lambda") None)) ->
       matchesSomeTarget asciiLower (asciiLower (lit "Lambda"))
         (Samples.icon "lambda.svg" "root" "lambda.svg" 0))
      /\ (In (Samples.icon "lambda.svg" "root" "lambda.svg" 0)
            (icons (Search.searchFilesJson asciiLower defaultCompare
                      Samples.lambdaRecords (lit "Lambda") None)) ->
          matchesSomeTarget asciiLower (asciiLower (lit "Lambda"))
            (Samples.icon "lambda.svg" "root" "lambda.svg" 0))).
Proof.
  split; [reflexivity |]. split; [right; reflexivity |].
  apply (icons_satisfy_match_predicate asciiLower defaultCompare
           Samples.lambdaRecords (lit "Lambda") None
           (Samples.icon "lambda.svg" "root" "lambda.svg" 0));
    [reflexivity | right; reflexivity].
Defined.

(** [canonicalCompare] is a consistent comparator that returns 0 on two
    strings that differ. *)
Lemma canonicalCompare_swap (a b : jsstring) :
  Canonical.canonicalCompare a b < 0 <-> 0 < Canonical.canonicalCompare b a.
Proof. apply defaultCompare_swap. Qed.

Lemma canonicalCompare_trans (a b c : jsstring) :
  Canonical.canonicalCompare a b <= 0 -> Canonical.canonicalCompare b c <= 0 ->
  Canonical.canonicalCompare a c <= 0.
Proof. apply defaultCompare_trans. Qed.

Lemma canonicalCompare_equivalent :
  Canonical.canonicalCompare Canonical.cafePrecomposed Canonical.cafeDecomposed
  = 0
  /\ Canonical.cafePrecomposed <> Canonical.cafeDecomposed.
Proof. split; [reflexivity | discriminate]. Qed.

Lemma tiedRecords_directories (f g : IconFile) :
  In f Canonical.tiedRecords -> In g Canonical.tiedRecords ->
  Canonical.canonicalCompare (directory f) (directory g) = 0 ->
  directory f = directory g.
Proof.
  intros Hf Hg.
  destruct Hf as [<- | [<- | [<- | []]]];
    destruct Hg as [<- | [<- | [<- | []]]];
    vm_compute; intros H; try reflexivity; discriminate.
Qed.



(** A deep exact match is returned after a shallow prefix match; the two
    records are as a snapshot file may hold them. *)
Lemma deep_exact_match_ranks_below :
  ~ (forall (allFiles : list IconFile) (searchTerm : jsstring)
            (filterDir : option jsstring) (i j : nat)
            (exact other : IconFile),
       blankQuery searchTerm = false ->
       nth_error (icons (Search.searchFilesJson asciiLower defaultCompare
                           allFiles searchTerm filterDir)) i = Some exact ->
       nth_error (icons (Search.searchFilesJson asciiLower defaultCompare
                           allFiles searchTerm filterDir)) j = Some other ->
       exactMatch asciiLower (asciiLower searchTerm) exact ->
       ~ exactMatch asciiLower (asciiLower searchTerm) other ->
       (i <= j)%nat).
Proof.
  intros H.
  specialize (H [Samples.deepEc2; Samples.ec2Instance] (lit "ec2") None
                1%nat 0%nat Samples.deepEc2 Samples.ec2Instance).
  assert (Hle : (1 <= 0)%nat); [| lia].
  apply H; try reflexivity.
  - right. reflexivity.
  - intros [E | E]; vm_compute in E; discriminate.
Qed.

Lemma exact_match_ranks_before_others_witness :
  nth_error (icons (Search.searchFiles asciiLower defaultCompare
                      Samples.lambdaRecords (lit "lambda") None)) 0
    = Some (Samples.icon "lambda.svg" "root" "lambda.svg" 0)
  /\ nth_error (icons (Search.searchFiles asciiLower defaultCompare
                         Samples.lambdaRecords (lit "lambda") None)) 1
     = Some (Samples.icon "lambda-function.svg" "compute"
               "compute/lambda-function.svg" 1)
  /\ (0 < 1)%nat.
Proof.
  split; [reflexivity |]. split; [reflexivity |].
  apply (exact_match_ranks_before_others asciiLower defaultCompare
           Samples.lambdaRecords (lit "lambda") None
           (icons (Search.searchFiles asciiLower defaultCompare
                     Samples.lambdaRecords (lit "lambda") None))
           0%nat 1%nat
           (Samples.icon "lambda.svg" "root" "lambda.svg" 0)
           (Samples.icon "lambda-function.svg" "compute"
              "compute/lambda-function.svg" 1)).
  - left. reflexivity.
  - reflexivity.
  - reflexivity.
  - reflexivity.
  - right. reflexivity.
  - intros [E | E]; vm_compute in E; discriminate.
  - vm_compute. reflexivity.
Defined.

(** A file directly under the root has depth 0 and no separator in its
    relative path. *)
Lemma root_file_depth_is_not_separators_minus_one :
  ~ (forall (tree : list dirent) (files : list IconFile) (file : IconFile),
       Route.getAllFilesRecursively asciiLower 10 (Returns tree) [] 0
         = Returns files ->
       In file files ->
       depth file = countSeparators (relativePath file) - 1).
Proof.
  intros H.
  specialize (H Samples.flatTree [Samples.flatRecord] Samples.flatRecord
                eq_refl (or_introl eq_refl)).
  vm_compute in H. discriminate.
Qed.

Lemma depth_counts_separators_witness :
  forallb validEntry Samples.mixedTree = true
  /\ depth (mkIconFile (lit "l.SVG") (lit "compute/l.SVG")
              (lit "compute/l.SVG") (lit "compute")
              (Some 512) (Some 1700000000) 1)
     = countSeparators (lit "compute/l.SVG").
Proof.
  split; [reflexivity |].
  apply (depth_counts_separators asciiLower 10 Samples.mixedTree
           [Samples.flatRecord;
            mkIconFile (lit "l.SVG") (lit "compute/l.SVG")
              (lit "compute/l.SVG") (lit "compute")
              (Some 512) (Some 1700000000) 1]).
  - reflexivity.
  - left. reflexivity.
  - right. left. reflexivity.
Defined.

(** ** The scenarios of the specification *)

Example parse_name_examples :
  NodePath.name (NodePath.parse (lit "ec2.svg")) = lit "ec2"
  /\ NodePath.name (NodePath.parse (lit "aws-lambda-arch.png"))
     = lit "aws-lambda-arch"
  /\ NodePath.name (NodePath.parse (lit ".hidden")) = lit ".hidden"
  /\ NodePath.extname (lit "l.SVG") = lit ".SVG"
  /\ NodePath.dirname (lit "compute/diagrams/a.png") = lit "compute/diagrams".
Proof. repeat split; reflexivity. Qed.

Example lambda_scenario_scores :
  map (Search.getRelevanceScore asciiLower (lit "lambda")) Samples.lambdaRecords
  = [8; 59; 160].
Proof. reflexivity. Qed.

Example lambda_scenario_order :
  map name (icons (Search.searchFiles asciiLower defaultCompare
                     Samples.lambdaRecords (lit "lambda") None))
  = [lit "lambda.svg"; lit "lambda-function.svg"; lit "aws-lambda-arch.png"].
Proof. reflexivity. Qed.

Example compute_filter_scenario :
  Search.searchFiles asciiLower defaultCompare
    Samples.lambdaRecords [] (Some (lit "compute"))
  = mkOutcome
      [Samples.icon "lambda-function.svg" "compute"
         "compute/lambda-function.svg" 1]
      [lit "compute"; lit "compute/diagrams"; lit "root"].
Proof. reflexivity. Qed.

Example missing_root_scenario :
  Entry.searchIconFiles asciiLower defaultCompare Samples.missingRoot
    [] (lit "public/icons") None
  = Returns emptyOutcome.
Proof. reflexivity. Qed.

Example live_root_scenario :
  Entry.searchIconFiles asciiLower defaultCompare Samples.liveRoot
    (lit "svg") (lit "public/icons") None
  = Returns
      (mkOutcome
         [Samples.flatRecord;
          mkIconFile (lit "l.SVG") (lit "compute/l.SVG")
            (lit "compute/l.SVG") (lit "compute")
            (Some 512) (Some 1700000000) 1]
         [lit "compute"; lit "root"]).
Proof. reflexivity. Qed.

(** * Further properties of the search pipeline *)

Section Pipeline.
Variable toLowerCase : jsstring -> jsstring.
Variable localeCompare : jsstring -> jsstring -> Z.

Abbreviation searchLive := (Search.searchFiles toLowerCase localeCompare).
Abbreviation searchJson := (Search.searchFilesJson toLowerCase localeCompare).
Abbreviation relevance := (Search.getRelevanceScore toLowerCase).

(** X1. For a query that is not blank, the icons are exactly the scoped
    records that match the lower-cased query, each as often as it occurs in
    the input: no matching record is dropped or repeated. *)
Theorem query_returns_every_matching_record
    (allFiles : list IconFile) (searchTerm : jsstring)
    (filterDir : option jsstring)
    (Hquery : blankQuery searchTerm = false) :
  Permutation
    (icons (searchLive allFiles searchTerm filterDir))
    (filter (Search.matchesSearch toLowerCase (toLowerCase searchTerm))
       (scopedSet allFiles (givenFilter filterDir)))
  /\ Permutation
       (icons (searchJson allFiles searchTerm filterDir))
       (filter (Search.matchesSearch toLowerCase (toLowerCase searchTerm))
          (scopedSet allFiles (givenFilter filterDir))).
Proof.
  destruct (icons_query toLowerCase localeCompare
              allFiles searchTerm filterDir Hquery) as [-> ->].
  rewrite <- applyDirectoryFilter_scoped. split; apply sort_perm.
Qed.

(** X2. For a query that is not blank, the icons are in descending order of
    relevance score: no record stands before one that scores higher. *)
Theorem icons_descend_by_score
    (allFiles : list IconFile) (searchTerm : jsstring)
    (filterDir : option jsstring)
    (Hquery : blankQuery searchTerm = false) :
  StronglySorted (scoreOrdered toLowerCase (toLowerCase searchTerm))
    (icons (searchLive allFiles searchTerm filterDir))
  /\ StronglySorted (scoreOrdered toLowerCase (toLowerCase searchTerm))
       (icons (searchJson allFiles searchTerm filterDir)).
Proof.
  destruct (icons_query toLowerCase localeCompare
              allFiles searchTerm filterDir Hquery) as [-> ->].
  apply relevance_sort_by_score.
Qed.

(** X4. Whatever the query, every returned icon is one of the input
    records, and when the filter is a non-empty string its directory is the
    filter's. *)
Theorem icons_come_from_the_scope
    (allFiles : list IconFile) (searchTerm : jsstring)
    (filterDir : option jsstring) (file : IconFile)
    (Hin : In file (icons (searchLive allFiles searchTerm filterDir))
           \/ In file (icons (searchJson allFiles searchTerm filterDir))) :
  In file allFiles
  /\ forall d, givenFilter filterDir = Some d -> directory file = d.
Proof.
  assert (Hscoped : In file (scopedSet allFiles (givenFilter filterDir))).
  { rewrite <- applyDirectoryFilter_scoped.
    destruct (blankQuery searchTerm) eqn:Hq.
    - destruct (icons_blank toLowerCase localeCompare
                  allFiles searchTerm filterDir Hq) as [E1 E2].
      rewrite E1, E2, !sort_In in Hin. tauto.
    - destruct (icons_query toLowerCase localeCompare
                  allFiles searchTerm filterDir Hq) as [E1 E2].
      rewrite E1, E2, !sort_In, !filter_In in Hin. tauto. }
  destruct (givenFilter filterDir) as [d |]; cbn [scopedSet] in Hscoped.
  - apply filter_In in Hscoped. destruct Hscoped as [Hall Hd].
    split; [exact Hall |]. intros d' E. inversion E; subst.
    apply eqb_eq, Hd.
  - split; [exact Hscoped | discriminate].
Qed.


End Pipeline.

(** ** Ties, and searching again *)

Lemma filter_all {A} (p : A -> bool) (l : list A) :
  (forall x, In x l -> p x = true) -> filter p l = l.
Proof.
  induction l as [|x l IH]; intros H; [reflexivity |].
  cbn [filter]. rewrite (H x (or_introl eq_refl)), IH; [reflexivity |].
  intros y Hy. apply H. right; exact Hy.
Qed.

(** Sorting leaves a list alone when no element should move in front of an
    earlier one. *)
Lemma sort_keeps_sorted {A} (cmp : A -> A -> Z) (l acc : list A) :
  (forall x y, In y acc -> In x l -> 0 <= cmp x y) ->
  StronglySorted (fun a b => 0 <= cmp b a) l ->
  fold_left (fun acc x => insert cmp x acc) l acc = acc ++ l.
Proof.
  revert acc. induction l as [|x l IH]; intros acc Hacc Hl.
  - rewrite app_nil_r. reflexivity.
  - inversion Hl as [|? ? Hl' Hx]; subst. cbn [fold_left].
    assert (E : insert cmp x acc = acc ++ [x]).
    { assert (H : forall y, In y acc -> 0 <= cmp x y)
        by (intros y Hy; apply Hacc; [exact Hy | left; reflexivity]).
      clear - H. induction acc as [|y acc IH]; [reflexivity |].
      cbn [insert app].
      destruct (Z.ltb_spec (cmp x y) 0) as [Hlt | _].
      - specialize (H y (or_introl eq_refl)). lia.
      - rewrite IH; [reflexivity |]. intros z Hz. apply H. right; exact Hz. }
    rewrite E, IH, <- app_assoc; [reflexivity | | exact Hl'].
    intros z y Hy Hz. apply in_app_iff in Hy. destruct Hy as [Hy | [<- | []]].
    + apply Hacc; [exact Hy | right; exact Hz].
    + rewrite Forall_forall in Hx. apply Hx, Hz.
Qed.

Lemma applyDirectoryFilter_among (allFiles : list IconFile)
    (filterDir : option jsstring) :
  Forall (fun f => In f allFiles)
    (Search.applyDirectoryFilter allFiles filterDir).
Proof.
  apply Forall_forall. intros f Hf.
  destruct filterDir as [[|c d]|]; cbn in Hf; auto.
  apply filter_In in Hf. tauto.
Qed.

Section Ties.
Variable toLowerCase : jsstring -> jsstring.
Variable localeCompare : jsstring -> jsstring -> Z.
Hypothesis localeCompare_swap :
  forall x y, localeCompare x y < 0 <-> 0 < localeCompare y x.
Hypothesis localeCompare_trans :
  forall x y z, localeCompare x y <= 0 -> localeCompare y z <= 0 ->
                localeCompare x z <= 0.

Abbreviation ranked := (Rank.compareRanked toLowerCase localeCompare).
Abbreviation byName := (Search.compareDirectoryName localeCompare).

Lemma compareRelevance_ranked q a b :
  Search.compareRelevance toLowerCase localeCompare q a b
  = ranked toLowerCase q a b.
Proof. reflexivity. Qed.

Lemma compareRelevanceJson_ranked q a b :
  Search.compareRelevanceJson toLowerCase localeCompare q a b
  = ranked (fun s => s) q a b.
Proof. reflexivity. Qed.

Lemma byName_swap a b : byName a b <= 0 -> 0 <= byName b a.
Proof.
  intros H. destruct (Z.ltb_spec (byName b a) 0) as [Hlt | Hge]; [| exact Hge].
  assert (H0 : 0 <= byName b a -> byName a b <= 0)
    by apply (byDirectoryName_other localeCompare localeCompare_swap).
  unfold Search.compareDirectoryName in *.
  destruct (eqb (directory a) (directory b)) eqn:E.
  - apply eqb_eq in E. rewrite (proj2 (eqb_eq _ _) (eq_sym E)) in *.
    cbn [negb] in *. apply localeCompare_swap in Hlt. lia.
  - assert (E' : eqb (directory b) (directory a) = false).
    { apply eqb_neq. apply eqb_neq in E. congruence. }
    rewrite E' in *. cbn [negb] in *. apply localeCompare_swap in Hlt. lia.
Qed.

Lemma ranked_other normalize q a b :
  0 <= ranked normalize q a b -> ranked normalize q b a <= 0.
Proof.
  unfold Rank.compareRanked. cbv zeta.
  destruct (Z.eqb_spec (Search.getRelevanceScore toLowerCase q a)
              (Search.getRelevanceScore toLowerCase q b)) as [E | Hne].
  - rewrite E, Z.eqb_refl. cbn [negb].
    apply (byDirectoryName_other localeCompare localeCompare_swap).
  - destruct (Z.eqb_spec (Search.getRelevanceScore toLowerCase q b)
                (Search.getRelevanceScore toLowerCase q a)); [congruence |].
    cbn [negb]. lia.
Qed.

Lemma ranked_swap normalize q a b :
  ranked normalize q a b <= 0 -> 0 <= ranked normalize q b a.
Proof.
  unfold Rank.compareRanked. cbv zeta.
  destruct (Z.eqb_spec (Search.getRelevanceScore toLowerCase q a)
              (Search.getRelevanceScore toLowerCase q b)) as [E | Hne].
  - rewrite E, Z.eqb_refl. cbn [negb]. apply byName_swap.
  - destruct (Z.eqb_spec (Search.getRelevanceScore toLowerCase q b)
                (Search.getRelevanceScore toLowerCase q a)); [congruence |].
    cbn [negb]. lia.
Qed.

Section Known.
(** [known] holds of records among whose [normalize]d directories
    [localeCompare] returns 0 on equal strings only. *)
Variable normalize : jsstring -> jsstring.
Variable known : IconFile -> Prop.
Hypothesis known_normalized :
  forall f g, known f -> known g ->
    localeCompare (normalize (directory f)) (normalize (directory g)) = 0 ->
    normalize (directory f) = normalize (directory g).

Lemma normalized_directories r s :
  (exists f, known f /\ r = Rank.normalized normalize f) ->
  (exists g, known g /\ s = Rank.normalized normalize g) ->
  localeCompare (directory r) (directory s) = 0 -> directory r = directory s.
Proof.
  intros (f & Hf & ->) (g & Hg & ->). cbn [Rank.normalized directory].
  apply known_normalized; assumption.
Qed.

Lemma ranked_trans q a b c :
  known a -> known b -> known c ->
  ranked normalize q a b <= 0 -> ranked normalize q b c <= 0 ->
  ranked normalize q a c <= 0.
Proof.
  intros Ka Kb Kc. unfold Rank.compareRanked. cbv zeta.
  destruct (Z.eqb_spec (Search.getRelevanceScore toLowerCase q a)
              (Search.getRelevanceScore toLowerCase q b)) as [Eab | Nab];
  destruct (Z.eqb_spec (Search.getRelevanceScore toLowerCase q b)
              (Search.getRelevanceScore toLowerCase q c)) as [Ebc | Nbc];
  destruct (Z.eqb_spec (Search.getRelevanceScore toLowerCase q a)
              (Search.getRelevanceScore toLowerCase q c)) as [Eac | Nac];
  cbn [negb]; try lia.
  apply (byDirectoryName_trans localeCompare
           localeCompare_swap localeCompare_trans _ normalized_directories);
    eauto.
Qed.

Lemma ranked_spec q a b :
  known a -> known b ->
  ranked normalize q a b <= 0 ->
  Rank.rankedBefore toLowerCase localeCompare normalize q a b.
Proof.
  intros Ka Kb. unfold Rank.compareRanked, Rank.rankedBefore. cbv zeta.
  destruct (Z.eqb_spec (Search.getRelevanceScore toLowerCase q a)
              (Search.getRelevanceScore toLowerCase q b)) as [E | Hne];
    cbn [negb]; intros H; [right | left; lia].
  split; [exact E |].
  apply (byDirectoryName_spec localeCompare _ normalized_directories) in H;
    eauto.
Qed.

Lemma ranked_sort_sorted q l :
  Forall known l ->
  StronglySorted (fun a b => ranked normalize q a b <= 0)
    (sort (ranked normalize q) l).
Proof.
  apply (sort_sorted_on (ranked normalize q)
           (fun a b => ranked normalize q a b <= 0) known).
  - intros x y _ _ H. lia.
  - intros x y _ _. apply ranked_other.
  - intros x y z. apply ranked_trans.
Qed.

Lemma ranked_sort_ordered q l :
  Forall known l ->
  StronglySorted (Rank.rankedBefore toLowerCase localeCompare normalize q)
    (sort (ranked normalize q) l).
Proof.
  intros Hl. eapply StronglySorted_weaken; [| apply ranked_sort_sorted, Hl].
  rewrite Forall_forall in Hl.
  intros x y Hx Hy. apply ranked_spec; apply Hl;
    [apply sort_In in Hx | apply sort_In in Hy]; assumption.
Qed.

End Known.

Lemma matches_among (allFiles : list IconFile) (filterDir : option jsstring)
    (p : IconFile -> bool) :
  Forall (fun f => In f allFiles)
    (filter p (Search.applyDirectoryFilter allFiles filterDir)).
Proof.
  apply Forall_forall. intros f Hf. apply filter_In in Hf.
  destruct Hf as [Hf _].
  pose proof (applyDirectoryFilter_among allFiles filterDir) as H.
  rewrite Forall_forall in H. apply H, Hf.
Qed.

(** X3. When [localeCompare] is a consistent comparator, the icons of a
    query that is not blank are ordered by score, then by directory, then
    by name, provided [localeCompare] returns 0 for no two distinct
    directories of the records as the comparator reads them: the live route
    compares the lower-cased directory and name, the snapshot variant the
    stored ones. *)
Theorem icons_ordered_by_score_directory_name
    (allFiles : list IconFile) (searchTerm : jsstring)
    (filterDir : option jsstring)
    (Hlowered :
       forall f g, In f allFiles -> In g allFiles ->
         localeCompare (toLowerCase (directory f)) (toLowerCase (directory g))
         = 0 ->
         toLowerCase (directory f) = toLowerCase (directory g))
    (Hstored :
       forall f g, In f allFiles -> In g allFiles ->
         localeCompare (directory f) (directory g) = 0 ->
         directory f = directory g)
    (Hquery : blankQuery searchTerm = false) :
  StronglySorted
    (Rank.rankedBefore toLowerCase localeCompare toLowerCase
       (toLowerCase searchTerm))
    (icons (Search.searchFiles toLowerCase localeCompare
              allFiles searchTerm filterDir))
  /\ StronglySorted
       (Rank.rankedBefore toLowerCase localeCompare (fun s => s)
          (toLowerCase searchTerm))
       (icons (Search.searchFilesJson toLowerCase localeCompare
                 allFiles searchTerm filterDir)).
Proof.
  destruct (icons_query toLowerCase localeCompare
              allFiles searchTerm filterDir Hquery) as [-> ->].
  split.
  - apply (ranked_sort_ordered toLowerCase (fun f => In f allFiles) Hlowered).
    apply matches_among.
  - apply (ranked_sort_ordered (fun s => s) (fun f => In f allFiles) Hstored).
    apply matches_among.
Qed.

Lemma applyDirectoryFilter_again allFiles filterDir l :
  (forall x, In x l -> In x (Search.applyDirectoryFilter allFiles filterDir)) ->
  Search.applyDirectoryFilter l filterDir = l.
Proof.
  intros H. destruct filterDir as [[|c d]|]; cbn in *; try reflexivity.
  apply filter_all. intros x Hx. apply H, filter_In in Hx. tauto.
Qed.

Lemma sort_again {A} (cmp : A -> A -> Z) (l : list A) :
  StronglySorted (fun a b => cmp a b <= 0) l ->
  (forall a b, cmp a b <= 0 -> 0 <= cmp b a) ->
  sort cmp l = l.
Proof.
  intros Hs Hswap. unfold sort. rewrite sort_keeps_sorted; [reflexivity | |].
  - intros x y [].
  - eapply StronglySorted_weaken; [| exact Hs]. intros x y _ _. apply Hswap.
Qed.

(** X6. When [localeCompare] is a consistent comparator that returns 0 for
    no two distinct directories of the records, stored or lower-cased,
    searching the icons of a search again, with the same query and filter,
    returns them unchanged. *)
Theorem search_again_keeps_icons
    (allFiles : list IconFile) (searchTerm : jsstring)
    (filterDir : option jsstring)
    (Hlowered :
       forall f g, In f allFiles -> In g allFiles ->
         localeCompare (toLowerCase (directory f)) (toLowerCase (directory g))
         = 0 ->
         toLowerCase (directory f) = toLowerCase (directory g))
    (Hstored :
       forall f g, In f allFiles -> In g allFiles ->
         localeCompare (directory f) (directory g) = 0 ->
         directory f = directory g) :
  let first := icons (Search.searchFiles toLowerCase localeCompare
                        allFiles searchTerm filterDir) in
  icons (Search.searchFiles toLowerCase localeCompare
           first searchTerm filterDir) = first.
Proof.
  cbv zeta.
  remember (icons (Search.searchFiles toLowerCase localeCompare
                     allFiles searchTerm filterDir)) as first eqn:Hfirst.
  destruct (blankQuery searchTerm) eqn:Hq.
  - destruct (icons_blank toLowerCase localeCompare
                allFiles searchTerm filterDir Hq) as [E _].
    destruct (icons_blank toLowerCase localeCompare
                first searchTerm filterDir Hq) as [-> _].
    rewrite E in Hfirst.
    rewrite (applyDirectoryFilter_again allFiles)
      by (intros x Hx; rewrite Hfirst in Hx; apply sort_In in Hx; exact Hx).
    rewrite Hfirst. apply sort_again; [| apply byName_swap].
    apply (byDirectoryName_sorted localeCompare
             localeCompare_swap localeCompare_trans
             (fun f => In f allFiles) Hstored).
    apply applyDirectoryFilter_among.
  - destruct (icons_query toLowerCase localeCompare
                allFiles searchTerm filterDir Hq) as [E _].
    destruct (icons_query toLowerCase localeCompare
                first searchTerm filterDir Hq) as [-> _].
    rewrite E in Hfirst.
    rewrite (applyDirectoryFilter_again allFiles)
      by (intros x Hx; rewrite Hfirst in Hx;
          apply sort_In, filter_In in Hx; tauto).
    rewrite filter_all
      by (intros x Hx; rewrite Hfirst in Hx;
          apply sort_In, filter_In in Hx; tauto).
    rewrite Hfirst.
    apply (sort_again (ranked toLowerCase (toLowerCase searchTerm)));
      [| apply ranked_swap].
    apply (ranked_sort_sorted toLowerCase (fun f => In f allFiles) Hlowered).
    apply matches_among.
Qed.

End Ties.

(** * Further properties of the traversals *)

Lemma forOf_app {S X} (body : X -> eff S unit) (l1 l2 : list X) (s : S) :
  forOf body (l1 ++ l2) s
  = match forOf body l1 s with
    | (Returns _, s1) => forOf body l2 s1
    | (Throws e, s1) => (Throws e, s1)
    end.
Proof.
  revert s. induction l1 as [|x l1 IH]; intros s; [reflexivity |].
  cbn [app forOf]. destruct (body x s) as [[u | e] s1]; [apply IH | reflexivity].
Qed.

Lemma forOf_without {S X} (body : X -> eff S unit) (l1 l2 : list X) (x : X) :
  (forall s, body x s = (Returns tt, s)) ->
  forall s, forOf body (l1 ++ x :: l2) s = forOf body (l1 ++ l2) s.
Proof.
  intros Hx s. rewrite !forOf_app.
  destruct (forOf body l1 s) as [[u | e] s1]; [| reflexivity].
  cbn [forOf]. rewrite Hx. reflexivity.
Qed.

Section TraversalFacts.
Variable toLowerCase : jsstring -> jsstring.
Variable maxDepth : Z.

Abbreviation routeVisit := (Route.visitEntry toLowerCase maxDepth).
Abbreviation scriptVisit := (Script.visitEntry toLowerCase maxDepth).
Abbreviation routeFiles := (Route.getAllFilesRecursively toLowerCase maxDepth).
Abbreviation scriptFiles := (Script.getAllIconFiles toLowerCase maxDepth).

Lemma route_failing_entry_is_inert (entry : dirent) relDir d files :
  Walk.failing entry = true -> routeVisit relDir d entry files = (Returns tt, files).
Proof.
  destruct entry as [n [st | e] | n [es | e] | n st]; try discriminate; intros _.
  - cbn [Route.visitEntry]. destruct (existsb _ supportedFormats); reflexivity.
  - cbn [Route.visitEntry].
    destruct (startsWith n (lit ".") || eqb n (lit "node_modules"));
      [reflexivity |].
    unfold Route.getAllFilesWith, Eff.bind, await, push, returningFiles,
      tryCatch, Eff.ret.
    destruct (d + 1 >? maxDepth); rewrite app_nil_r; reflexivity.
Qed.

(** X8. In the route's traversal an entry whose metadata or listing cannot
    be read behaves as if it were absent: the records of the other entries
    of the directory, before and after it, are returned all the same. *)
Theorem route_isolates_failing_entries
    (before after : list dirent) (bad : dirent) (relDir : jsstring) (d : Z)
    (Hbad : Walk.failing bad = true) :
  routeFiles (Returns (before ++ bad :: after)) relDir d
  = routeFiles (Returns (before ++ after)) relDir d.
Proof.
  unfold Route.getAllFilesRecursively, Route.getAllFilesWith.
  destruct (d >? maxDepth); [reflexivity |].
  unfold returningFiles, tryCatch.
  rewrite (forOf_without (routeVisit relDir d) before after bad); [reflexivity |].
  intros s. apply route_failing_entry_is_inert, Hbad.
Qed.


(** Whatever is pushed satisfies [Q] when every record built for a
    supported name does. *)
Lemma route_visitEntry_pushes (Q : IconFile -> Prop) :
  (forall relDir d n stats,
     Walk.supported toLowerCase n = true ->
     Q (Route.fileRecord relDir d n stats)) ->
  forall entry relDir d, grows Q (routeVisit relDir d entry).
Proof.
  intros HQ.
  induction entry as [n stat | n stat | n e | n entries IH]
    using dirent_tree_ind; intros relDir d.
  - cbn [Route.visitEntry]. fold (Walk.supported toLowerCase n).
    destruct (Walk.supported toLowerCase n) eqn:Hs; [| apply grows_ret].
    apply grows_tryCatch; [| intros; apply grows_ret].
    apply grows_await_bind. intros stats _. apply grows_push.
    constructor; [apply HQ, Hs | constructor].
  - apply grows_ret.
  - intros s o s' H.
    rewrite (route_failing_entry_is_inert (DirEnt n (Throws e))) in H
      by reflexivity.
    inversion H; subst. exists []. rewrite app_nil_r. auto.
  - cbn [Route.visitEntry].
    destruct (startsWith n (lit ".") || eqb n (lit "node_modules"));
      [apply grows_ret |].
    apply grows_await_bind. intros files Hfiles. apply grows_push.
    unfold Route.getAllFilesWith in Hfiles.
    destruct (d + 1 >? maxDepth); [inversion Hfiles; subst; constructor |].
    apply (returningFiles_grows Q) in Hfiles; auto.
    apply grows_tryCatch; [| intros; apply grows_ret].
    apply grows_forOf. eapply Forall_impl; [| exact IH]. intros x Hx. apply Hx.
Qed.

Lemma script_visitFile_pushes (Q : IconFile -> Prop) relDir d n stat :
  (forall relativePath_ d n stats,
     Walk.supported toLowerCase n = true ->
     Q (Script.fileRecord relativePath_ d n stats)) ->
  grows Q (Script.visitFile toLowerCase relDir d n stat).
Proof.
  intros HQ. unfold Script.visitFile. cbv zeta.
  fold (Walk.supported toLowerCase n).
  destruct (Walk.supported toLowerCase n) eqn:Hs; [| apply grows_ret].
  cbn [negb]. apply grows_await_bind. intros stats _. apply grows_push.
  constructor; [apply HQ, Hs | constructor].
Qed.

Lemma script_visitEntry_pushes (Q : IconFile -> Prop) :
  (forall relativePath_ d n stats,
     Walk.supported toLowerCase n = true ->
     Q (Script.fileRecord relativePath_ d n stats)) ->
  forall entry relDir d, grows Q (scriptVisit relDir d entry).
Proof.
  intros HQ.
  induction entry as [n stat | n stat | n e | n entries IH]
    using dirent_tree_ind; intros relDir d; cbn [Script.visitEntry];
    try (apply script_visitFile_pushes; exact HQ).
  - apply grows_await_bind. intros files Hfiles. apply grows_push.
    unfold Script.getAllIconFilesWith in Hfiles.
    destruct (d + 1 >? maxDepth); [inversion Hfiles; subst; constructor |].
    unfold returningFiles in Hfiles. discriminate.
  - apply grows_await_bind. intros files Hfiles. apply grows_push.
    unfold Script.getAllIconFilesWith in Hfiles.
    destruct (d + 1 >? maxDepth); [inversion Hfiles; subst; constructor |].
    apply (returningFiles_grows Q) in Hfiles; auto.
    apply grows_forOf. eapply Forall_impl; [| exact IH]. intros x Hx. apply Hx.
Qed.

(** What holds of every record built for a supported name holds of every
    record the traversals return, for any tree. *)
Lemma returned_records_satisfy (Q : IconFile -> Prop)
    (listing : outcome (list dirent)) relDir d files :
  (forall relDir d n stats,
     Walk.supported toLowerCase n = true ->
     Q (Route.fileRecord relDir d n stats)) ->
  (forall relativePath_ d n stats,
     Walk.supported toLowerCase n = true ->
     Q (Script.fileRecord relativePath_ d n stats)) ->
  routeFiles listing relDir d = Returns files
  \/ scriptFiles listing relDir d = Returns files ->
  Forall Q files.
Proof.
  intros HR HS [H | H].
  - unfold Route.getAllFilesRecursively, Route.getAllFilesWith in H.
    destruct (d >? maxDepth); [inversion H; subst; constructor |].
    eapply returningFiles_grows; [| exact H].
    apply grows_tryCatch; [| intros; apply grows_ret].
    destruct listing as [entries | e].
    + apply grows_forOf, Forall_forall. intros x _.
      apply route_visitEntry_pushes, HR.
    + intros s o s' E. inversion E; subst. exists []. rewrite app_nil_r. auto.
  - unfold Script.getAllIconFiles, Script.getAllIconFilesWith in H.
    destruct (d >? maxDepth); [inversion H; subst; constructor |].
    eapply returningFiles_grows; [| exact H].
    destruct listing as [entries | e].
    + apply grows_forOf, Forall_forall. intros x _.
      apply script_visitEntry_pushes, HS.
    + intros s o s' E. inversion E; subst. exists []. rewrite app_nil_r. auto.
Qed.

(** X10. Every record either traversal returns, for any tree, belongs to a
    file whose lower-cased extension is one of the seven supported image
    formats, and carries the size and modification time read from it:
    an entry whose metadata cannot be read yields no record. *)
Theorem records_are_images_with_metadata
    (listing : outcome (list dirent)) (relDir : jsstring) (d : Z)
    (files : list IconFile) (file : IconFile)
    (Hfiles : routeFiles listing relDir d = Returns files
              \/ scriptFiles listing relDir d = Returns files)
    (Hin : In file files) :
  In (toLowerCase (NodePath.extname (name file))) supportedFormats
  /\ (exists bytes, size file = Some bytes)
  /\ (exists mtime, lastModified file = Some mtime).
Proof.
  revert file Hin. apply Forall_forall.
  eapply returned_records_satisfy; [| | exact Hfiles];
    intros; cbn [name size lastModified Route.fileRecord Script.fileRecord];
    (split; [| split; eexists; reflexivity]);
    unfold Walk.supported in *; apply existsb_exists in H;
    destruct H as [x [Hx E]]; apply eqb_eq in E; subst; exact Hx.
Qed.

(** X11. The script gives every record, for any tree, the path [/icons/]
    followed by the record's relative path. *)
Theorem script_path_is_mount_and_relative_path
    (listing : outcome (list dirent)) (relDir : jsstring) (d : Z)
    (files : list IconFile) (file : IconFile)
    (Hfiles : scriptFiles listing relDir d = Returns files)
    (Hin : In file files) :
  path file = lit "/icons/" ++ relativePath file.
Proof.
  revert file Hin. apply Forall_forall.
  unfold Script.getAllIconFiles, Script.getAllIconFilesWith in Hfiles.
  destruct (d >? maxDepth); [inversion Hfiles; subst; constructor |].
  eapply returningFiles_grows; [| exact Hfiles].
  destruct listing as [entries | e].
  - apply grows_forOf, Forall_forall. intros x _.
    apply script_visitEntry_pushes. intros; reflexivity.
  - intros s o s' E. inversion E; subst. exists []. rewrite app_nil_r. auto.
Qed.

Lemma plain_listing_appends (entries : list dirent) relDir d :
  Forall (fun entry =>
            Walk.plainEntry entry = true ->
            forall relDir d, exists new,
              (forall files,
                 routeVisit relDir d entry files = (Returns tt, files ++ new))
              /\ (forall files,
                    scriptVisit relDir d entry files
                    = (Returns tt, files ++ map Walk.asScript new))) entries ->
  forallb Walk.plainEntry entries = true ->
  exists news,
    (forall files,
       forOf (routeVisit relDir d) entries files = (Returns tt, files ++ news))
    /\ (forall files,
          forOf (scriptVisit relDir d) entries files
          = (Returns tt, files ++ map Walk.asScript news)).
Proof.
  induction 1 as [|x l Hx Hl IH]; intros Hplain.
  - exists []. split; intros files; cbn; rewrite app_nil_r; reflexivity.
  - cbn [forallb] in Hplain. apply andb_true_iff in Hplain.
    destruct Hplain as [Hpx Hpl].
    destruct (Hx Hpx relDir d) as [new [Hr Hs]].
    destruct (IH Hpl) as [news [Hrs Hss]].
    exists (new ++ news). split; intros files; cbn [forOf].
    + rewrite Hr, Hrs, app_assoc. reflexivity.
    + rewrite Hs, Hss, map_app, app_assoc. reflexivity.
Qed.

Lemma plain_entry_appends (entry : dirent) :
  Walk.plainEntry entry = true ->
  forall relDir d, exists new,
    (forall files,
       routeVisit relDir d entry files = (Returns tt, files ++ new))
    /\ (forall files,
          scriptVisit relDir d entry files
          = (Returns tt, files ++ map Walk.asScript new)).
Proof.
  induction entry as [n stat | n stat | n e | n entries IH]
    using dirent_tree_ind; cbn [Walk.plainEntry]; intros Hplain relDir d;
    try discriminate.
  - destruct stat as [stats | e]; [| discriminate].
    cbn [Route.visitEntry Script.visitEntry]. unfold Script.visitFile.
    cbv zeta. destruct (existsb _ supportedFormats).
    + exists [Route.fileRecord relDir d n stats]. split; reflexivity.
    + exists []. split; intros files; cbn; rewrite app_nil_r; reflexivity.
  - apply andb_true_iff in Hplain. destruct Hplain as [Hskip Hentries].
    apply negb_true_iff in Hskip. unfold skipped in Hskip.
    cbn [Route.visitEntry Script.visitEntry]. rewrite Hskip.
    unfold Route.getAllFilesWith, Script.getAllIconFilesWith.
    destruct (d + 1 >? maxDepth).
    + exists []. split; intros files; reflexivity.
    + destruct (plain_listing_appends entries (relativeOf relDir n) (d + 1)
                  IH Hentries) as [news [Hr Hs]].
      exists news. split; intros files;
        unfold Eff.bind, await, returningFiles, tryCatch, push;
        [rewrite Hr | rewrite Hs]; reflexivity.
Qed.

(** X12. On a tree of readable regular files and directories, none of
    which the route skips, both traversals return, and the script's records
    are the route's records, in the same order, with the same name,
    relative path, size, modification time and depth; only [path] and
    [directory] are computed differently. *)
Theorem traversals_agree_on_plain_trees
    (tree : list dirent) (relDir : jsstring) (d : Z)
    (Hplain : forallb Walk.plainEntry tree = true) :
  exists files,
    routeFiles (Returns tree) relDir d = Returns files
    /\ scriptFiles (Returns tree) relDir d
       = Returns (map Walk.asScript files).
Proof.
  unfold Route.getAllFilesRecursively, Route.getAllFilesWith,
    Script.getAllIconFiles, Script.getAllIconFilesWith.
  destruct (d >? maxDepth); [exists []; split; reflexivity |].
  destruct (plain_listing_appends tree relDir d) as [news [Hr Hs]];
    [| exact Hplain |].
  - apply Forall_forall. intros x _. apply plain_entry_appends.
  - exists news. unfold returningFiles, tryCatch. rewrite Hr, Hs.
    split; reflexivity.
Qed.

(** X13. For a file directly under the root of a well-formed tree the two
    traversals disagree on the directory: the route writes the sentinel
    [root], the script writes [.], because [path.dirname] never returns the
    empty string its fallback tests for. *)
Theorem root_files_get_different_directories
    (tree : list dirent) (files : list IconFile) (file : IconFile)
    (Hvalid : forallb validEntry tree = true)
    (Hin : In file files) (Hdepth : depth file = 0) :
  (routeFiles (Returns tree) [] 0 = Returns files ->
   directory file = lit "root")
  /\ (scriptFiles (Returns tree) [] 0 = Returns files ->
      directory file = lit ".").
Proof.
  split; intros Hfiles.
  - apply route_records_produced in Hfiles; [| exact Hvalid].
    rewrite Forall_forall in Hfiles.
    destruct (Hfiles file Hin) as [segs [n [stats [_ [Hn [_ ->]]]]]].
    cbn [depth Route.fileRecord] in Hdepth.
    destruct segs; [| cbn in Hdepth; lia].
    cbn [directory Route.fileRecord extendRel fold_left].
    change (relativeOf [] n) with n.
    rewrite dirname_of_name by exact Hn. reflexivity.
  - apply script_records_produced in Hfiles; [| exact Hvalid].
    rewrite Forall_forall in Hfiles.
    destruct (Hfiles file Hin) as [segs [n [stats [_ [Hn [_ ->]]]]]].
    cbn [depth scriptRecord Script.fileRecord] in Hdepth.
    destruct segs; [| cbn in Hdepth; lia].
    cbn [directory scriptRecord Script.fileRecord extendRel fold_left].
    change (relativeOf [] n) with n.
    destruct (validName_chars n Hn) as [_ [_ H92]].
    rewrite (replaceBackslashes_id n H92), dirname_of_name by exact Hn.
    reflexivity.
Qed.

End TraversalFacts.

(** * The HTTP handlers *)

Section HandlerFacts.
Variable toLowerCase : jsstring -> jsstring.
Variable localeCompare : jsstring -> jsstring -> Z.

Lemma searchIconFiles_returns fsys searchTerm directory_ filterDir :
  exists found,
    Entry.searchIconFiles toLowerCase localeCompare
      fsys searchTerm directory_ filterDir = Returns found.
Proof.
  apply runAsync_noThrow, noThrow_tryCatch. intros; apply noThrow_ret.
Qed.

Lemma searchIconFilesJson_returns readFile JSON_parse searchTerm jsonFile
    filterDir :
  exists found,
    Entry.searchIconFilesJson toLowerCase localeCompare
      readFile JSON_parse searchTerm jsonFile filterDir = Returns found.
Proof.
  apply runAsync_noThrow, noThrow_tryCatch. intros; apply noThrow_ret.
Qed.

(** X7. For every request whose URL parses, and whatever the state of the
    file system or of the snapshot file, [GET] answers with status 200, the
    icons and directories [searchIconFiles] found, [total] equal to the
    number of icons and the query echoed (empty when the parameter is
    absent); parameters that are empty strings count as absent.  Only a URL
    that does not parse gets the status-500 answer. *)
Theorem get_answers_with_search_result
    (fsys : jsstring -> rootdir)
    (readFile : jsstring -> outcome jsstring)
    (JSON_parse : jsstring -> outcome (list IconFile))
    (params : Http.SearchParams) (e : error) :
  (exists found,
     Entry.searchIconFiles toLowerCase localeCompare fsys
       (Http.orElse (Http.q params) [])
       (Http.orElse (Http.dir params) (lit "public/icons"))
       (Http.orUndefined (Http.filter_dir params)) = Returns found
     /\ Http.GET toLowerCase localeCompare fsys (Returns params)
        = Returns (Http.mkResponse 200 None (icons found)
                     (Z.of_nat (List.length (icons found)))
                     (Http.orElse (Http.q params) []) (directories found)))
  /\ (exists found,
        Entry.searchIconFilesJson toLowerCase localeCompare
          readFile JSON_parse
          (Http.orElse (Http.q params) []) (lit "/app/icons.json")
          (Http.orUndefined (Http.filter_dir params)) = Returns found
        /\ Http.GETJson toLowerCase localeCompare readFile JSON_parse
             (Returns params)
           = Returns (Http.mkResponse 200 None (icons found)
                        (Z.of_nat (List.length (icons found)))
                        (Http.orElse (Http.q params) []) (directories found)))
  /\ Http.GET toLowerCase localeCompare fsys (Throws e) = Returns Http.failure
  /\ Http.GETJson toLowerCase localeCompare readFile JSON_parse (Throws e)
     = Returns Http.failure.
Proof.
  split; [| split; [| split; reflexivity]].
  - destruct (searchIconFiles_returns fsys
                (Http.orElse (Http.q params) [])
                (Http.orElse (Http.dir params) (lit "public/icons"))
                (Http.orUndefined (Http.filter_dir params))) as [found Hfound].
    exists found. split; [exact Hfound |].
    unfold Http.GET, Entry.runAsync, tryCatch, Eff.bind, await.
    rewrite Hfound. destruct found. reflexivity.
  - destruct (searchIconFilesJson_returns readFile JSON_parse
                (Http.orElse (Http.q params) []) (lit "/app/icons.json")
                (Http.orUndefined (Http.filter_dir params))) as [found Hfound].
    exists found. split; [exact Hfound |].
    unfold Http.GETJson, Entry.runAsync, tryCatch, Eff.bind, await.
    rewrite Hfound. destruct found. reflexivity.
Qed.

End HandlerFacts.

(** * The page component: display names *)

Lemma upperChar_word (c : N) :
  Page.isWordChar c = true -> Page.isWordChar (Page.upperChar c) = true.
Proof.
  unfold Page.upperChar.
  destruct (N.leb_spec 97 c), (N.leb_spec c 122); cbn [andb]; auto.
  intros _. unfold Page.isWordChar.
  assert (H1 : (65 <=? c - 32)%N = true) by (apply N.leb_le; lia).
  assert (H2 : (c - 32 <=? 90)%N = true) by (apply N.leb_le; lia).
  rewrite H1, H2. cbn [andb]. rewrite orb_true_r. reflexivity.
Qed.

Lemma upperChar_not_hyphen (c : N) : c <> 45%N -> Page.upperChar c <> 45%N.
Proof.
  unfold Page.upperChar.
  destruct (N.leb_spec 97 c), (N.leb_spec c 122); cbn [andb]; lia.
Qed.

Lemma capitalizeWords_length (b : bool) (s : jsstring) :
  List.length (Page.capitalizeWords b s) = List.length s.
Proof.
  revert b; induction s as [|c s IH]; intros b; [reflexivity |].
  cbn [Page.capitalizeWords List.length]. rewrite IH. reflexivity.
Qed.

Lemma capitalizeWords_no_hyphen (b : bool) (s : jsstring) :
  ~ In 45%N s -> ~ In 45%N (Page.capitalizeWords b s).
Proof.
  revert b; induction s as [|c s IH]; intros b Hs; [exact Hs |].
  cbn [Page.capitalizeWords]. intros [E | Hin].
  - assert (Hc : c <> 45%N) by (intros ->; apply Hs; left; reflexivity).
    destruct (Page.isWordChar c && negb b); [| contradiction].
    apply (upperChar_not_hyphen c Hc), E.
  - apply (IH (Page.isWordChar c)); [| exact Hin].
    intros H. apply Hs. right; exact H.
Qed.

Lemma hyphensToSpaces_no_hyphen (s : jsstring) :
  ~ In 45%N (Page.hyphensToSpaces s).
Proof.
  unfold Page.hyphensToSpaces. rewrite in_map_iff. intros [c [E _]].
  destruct (N.eqb_spec c 45); [discriminate | contradiction].
Qed.

Lemma stripExtension_length (s : jsstring) :
  (List.length (Page.stripExtension s) <= List.length s)%nat.
Proof.
  induction s as [|c s IH]; [reflexivity |].
  cbn [Page.stripExtension].
  destruct (Page.matchesExtensionHere (c :: s)); cbn [List.length]; lia.
Qed.

(** X18. The display name [formatFileName] builds has no hyphen left and
    is never longer than the filename. *)
Theorem formatted_name_has_no_hyphen (filename : jsstring) :
  ~ In 45%N (Page.formatFileName filename)
  /\ (List.length (Page.formatFileName filename) <= List.length filename)%nat.
Proof.
  unfold Page.formatFileName. split.
  - apply capitalizeWords_no_hyphen, hyphensToSpaces_no_hyphen.
  - rewrite capitalizeWords_length. unfold Page.hyphensToSpaces.
    rewrite length_map. apply stripExtension_length.
Qed.

Lemma capitalizeWords_lower (s : jsstring) :
  forall (b : bool) (pre : jsstring) (c : N) (rest : jsstring),
    Page.capitalizeWords b s = pre ++ c :: rest ->
    (97 <= c <= 122)%N ->
    (pre = [] /\ b = true)
    \/ exists pre' p, pre = pre' ++ [p] /\ Page.isWordChar p = true.
Proof.
  induction s as [|x s IH]; intros b pre c rest Hout Hc.
  - destruct pre; discriminate.
  - cbn [Page.capitalizeWords] in Hout.
    assert (Hword : Page.isWordChar x = true -> b = false ->
                    ~ (97 <= Page.upperChar x <= 122)%N).
    { intros _ _. unfold Page.upperChar.
      destruct (N.leb_spec 97 x), (N.leb_spec x 122); cbn [andb]; lia. }
    destruct pre as [|y pre1]; cbn [app] in Hout; inversion Hout as [[Hhead Htail]].
    + left. split; [reflexivity |].
      destruct b; [reflexivity | exfalso].
      destruct (Page.isWordChar x) eqn:Hx; cbn [andb negb] in Hhead; subst c.
      * apply (Hword eq_refl eq_refl), Hc.
      * unfold Page.isWordChar in Hx.
        destruct (N.leb_spec 97 x), (N.leb_spec x 122);
          cbn [andb orb] in Hx; try discriminate; lia.
    + right. destruct (IH _ _ _ _ Htail Hc) as [[-> Hx] | [pre' [p [-> Hp]]]].
      * eexists [], _. split; [reflexivity |].
        destruct (Page.isWordChar x && negb b);
          [apply upperChar_word, Hx | exact Hx].
      * eexists (_ :: pre'), p. split; [reflexivity | exact Hp].
Qed.

(** X19. In the display name no word starts with a lower-case ASCII letter:
    wherever such a letter stands, a word character stands right before
    it. *)
Theorem formatted_name_capitalizes_words
    (filename pre rest : jsstring) (c : N)
    (Hname : Page.formatFileName filename = pre ++ c :: rest)
    (Hlower : (97 <= c <= 122)%N) :
  exists pre' p, pre = pre' ++ [p] /\ Page.isWordChar p = true.
Proof.
  destruct (capitalizeWords_lower _ _ _ _ _ Hname Hlower)
    as [[_ H] | H]; [discriminate | exact H].
Qed.

Lemma asciiLower_app (a b : jsstring) :
  asciiLower (a ++ b) = asciiLower a ++ asciiLower b.
Proof. apply map_app. Qed.

(** X20. A name that ends in a dot and one of the seven image extensions,
    in any letter case, loses exactly that ending: its display name is the
    stem with hyphens turned into spaces and words capitalized, whatever
    dots the stem itself contains. *)
Theorem formatted_name_drops_extension
    (stem extension : jsstring)
    (Hext : In (asciiLower extension) Page.extensionAlternatives) :
  Page.stripExtension (stem ++ 46%N :: extension) = stem
  /\ Page.formatFileName (stem ++ 46%N :: extension)
     = Page.capitalizeWords false (Page.hyphensToSpaces stem).
Proof.
  assert (Hstrip : Page.stripExtension (stem ++ 46%N :: extension) = stem).
  { induction stem as [|c stem IH].
    - cbn [app Page.stripExtension Page.matchesExtensionHere].
      rewrite N.eqb_refl. cbn [andb].
      assert (H : existsb (eqb (asciiLower extension))
                    Page.extensionAlternatives = true).
      { apply existsb_exists. exists (asciiLower extension).
        split; [exact Hext | apply eqb_refl]. }
      rewrite H. reflexivity.
    - cbn [app Page.stripExtension]. rewrite IH.
      assert (H : Page.matchesExtensionHere (c :: stem ++ 46%N :: extension)
                  = false).
      { cbn [Page.matchesExtensionHere]. apply andb_false_iff. right.
        apply not_true_is_false. rewrite existsb_exists.
        intros [alt [Halt E]]. apply eqb_eq in E.
        assert (Hdot : In 46%N alt).
        { rewrite <- E, asciiLower_app. apply in_or_app. right.
          left. reflexivity. }
        revert Hdot. clear - Halt.
        cbn in Halt.
        repeat (destruct Halt as [<- | Halt];
                [cbn; intuition discriminate |]).
        contradiction. }
      rewrite H. reflexivity. }
  split; [exact Hstrip |]. unfold Page.formatFileName. rewrite Hstrip.
  reflexivity.
Qed.

(** * The directory filter component: the tree of directories *)

Module DF := DirectoryFilter.

Lemma lookup_assign_same key v t : DF.lookup key (DF.assign key v t) = Some v.
Proof.
  induction t as [|[k v0] t IH]; cbn [DF.assign DF.lookup].
  - rewrite eqb_refl. reflexivity.
  - destruct (eqb k key) eqn:E; cbn [DF.lookup]; rewrite E; auto.
Qed.

Lemma lookup_assign_other key key' v t :
  key' <> key -> DF.lookup key' (DF.assign key v t) = DF.lookup key' t.
Proof.
  intros Hne. induction t as [|[k v0] t IH]; cbn [DF.assign DF.lookup].
  - destruct (eqb key key') eqn:E; [| reflexivity].
    apply eqb_eq in E. congruence.
  - destruct (eqb k key) eqn:E; cbn [DF.lookup].
    + apply eqb_eq in E. subst k.
      destruct (eqb key key') eqn:E'; [| reflexivity].
      apply eqb_eq in E'. congruence.
    + rewrite IH. reflexivity.
Qed.

Lemma lookup_assign key key' v t :
  DF.lookup key' (DF.assign key v t)
  = if eqb key key' then Some v else DF.lookup key' t.
Proof.
  destruct (eqb key key') eqn:E.
  - apply eqb_eq in E. subst. apply lookup_assign_same.
  - apply lookup_assign_other. apply eqb_neq in E. congruence.
Qed.

(** What [addChild] does to the entries: it throws exactly for a missing
    key that is inherited, and otherwise adds the child to the key's
    children unless it is there already. *)
Lemma addChild_cases t parent child :
  match DF.lookup parent t with
  | Some children =>
      DF.addChild t parent child
      = Returns (if existsb (eqb child) children then t
                 else DF.assign parent (children ++ [child]) t)
  | None =>
      if DF.inherited parent
      then DF.addChild t parent child = Throws TypeError
      else DF.addChild t parent child
           = Returns (DF.assign parent [child] (DF.assign parent [] t))
  end.
Proof.
  unfold DF.addChild. destruct (DF.lookup parent t) as [children |] eqn:E.
  - rewrite E. reflexivity.
  - destruct (DF.inherited parent); [rewrite E; reflexivity |].
    rewrite lookup_assign_same. reflexivity.
Qed.

Lemma addChild_lookup t parent child t' key :
  DF.addChild t parent child = Returns t' ->
  DF.lookup key t'
  = if eqb parent key then
      match DF.lookup parent t with
      | Some children =>
          Some (if existsb (eqb child) children then children
                else children ++ [child])
      | None => Some [child]
      end
    else DF.lookup key t.
Proof.
  intros H. pose proof (addChild_cases t parent child) as Hc.
  destruct (DF.lookup parent t) as [children |] eqn:E.
  - rewrite Hc in H. inversion H; subst t'; clear H.
    destruct (existsb (eqb child) children).
    + destruct (eqb parent key) eqn:Ek; [| reflexivity].
      apply eqb_eq in Ek. subst. exact E.
    + apply lookup_assign.
  - destruct (DF.inherited parent); rewrite Hc in H; [discriminate |].
    inversion H; subst t'; clear H. rewrite !lookup_assign.
    destruct (eqb parent key); reflexivity.
Qed.

Lemma addChild_inherited t parent child t' :
  DF.addChild t parent child = Returns t' ->
  DF.lookup parent t = None -> DF.inherited parent = false.
Proof.
  intros H E. pose proof (addChild_cases t parent child) as Hc.
  rewrite E in Hc. destruct (DF.inherited parent); [congruence | reflexivity].
Qed.

Lemma addChild_shaped t parent part t' :
  DF.shaped t ->
  DF.addChild t parent (DF.joinPath parent part) = Returns t' ->
  DF.shaped t'.
Proof.
  intros Hs H key children Hk.
  rewrite (addChild_lookup _ _ _ _ key H) in Hk.
  destruct (eqb parent key) eqn:Ek; [| apply Hs, Hk].
  apply eqb_eq in Ek. subst key.
  destruct (DF.lookup parent t) as [old |] eqn:E.
  - destruct (Hs _ _ E) as [Hne [Hnd [Hin Hch]]].
    destruct (existsb (eqb (DF.joinPath parent part)) old) eqn:Ex;
      inversion Hk; subst children; [auto |].
    split; [destruct old; discriminate |].
    split; [| split; [exact Hin |]].
    + apply NoDup_app; [exact Hnd | repeat constructor; simpl; tauto |].
      intros x Hx [<- | []].
      assert (existsb (eqb (DF.joinPath parent part)) old = true)
        by (apply (existsb_eq_In eqb eqb_eq); exact Hx).
      congruence.
    + intros c Hc. apply in_app_iff in Hc.
      destruct Hc as [Hc | [<- | []]]; [apply Hch, Hc | eauto].
  - inversion Hk; subst children.
    split; [discriminate |]. split; [repeat constructor; simpl; tauto |].
    split; [apply (addChild_inherited _ _ _ _ H E) |].
    intros c [<- | []]. eauto.
Qed.

Lemma addChild_listed t parent child t' :
  DF.addChild t parent child = Returns t' ->
  DF.listed t' child /\ forall x, DF.listed t x -> DF.listed t' x.
Proof.
  intros H. split.
  - exists parent. rewrite (addChild_lookup _ _ _ _ parent H), eqb_refl.
    destruct (DF.lookup parent t) as [old |].
    + destruct (existsb (eqb child) old) eqn:Ex; eexists; split; eauto.
      * apply (existsb_eq_In eqb eqb_eq). exact Ex.
      * apply in_app_iff. right. left. reflexivity.
    + eexists; split; [reflexivity | left; reflexivity].
  - intros x [key [children [Hk Hx]]]. exists key.
    rewrite (addChild_lookup _ _ _ _ key H).
    destruct (eqb parent key) eqn:Ek; [| eauto].
    apply eqb_eq in Ek. subst key. rewrite Hk.
    destruct (existsb (eqb child) children); eexists; split; eauto.
    apply in_app_iff. left. exact Hx.
Qed.

Lemma addParts_shaped parts : forall currentPath t t',
  DF.shaped t -> DF.addParts parts currentPath t = Returns t' -> DF.shaped t'.
Proof.
  induction parts as [|part parts IH]; intros cur t t' Hs H; cbn in H.
  - inversion H; subst. exact Hs.
  - destruct (DF.addChild t cur (DF.joinPath cur part)) as [t1 | e] eqn:E;
      [| discriminate].
    eapply IH; [| exact H]. eapply addChild_shaped; eauto.
Qed.

Lemma addParts_listed parts : forall currentPath t t',
  DF.addParts parts currentPath t = Returns t' ->
  (parts <> [] -> DF.listed t' (fold_left DF.joinPath parts currentPath))
  /\ forall x, DF.listed t x -> DF.listed t' x.
Proof.
  induction parts as [|part parts IH]; intros cur t t' H; cbn in H.
  - inversion H; subst.
    split; [intros Hn; exfalso; apply Hn; reflexivity | auto].
  - destruct (DF.addChild t cur (DF.joinPath cur part)) as [t1 | e] eqn:E;
      [| discriminate].
    destruct (addChild_listed _ _ _ _ E) as [Hnew Hmono].
    destruct (IH _ _ _ H) as [Hlast Hmono'].
    split; [| auto]. intros _. cbn [fold_left].
    destruct parts as [|p ps]; [| apply Hlast; discriminate].
    cbn in H. inversion H; subst. exact Hnew.
Qed.

Lemma addDirs_shaped dirs : forall t t',
  DF.shaped t -> DF.addDirs dirs t = Returns t' -> DF.shaped t'.
Proof.
  induction dirs as [|dir dirs IH]; intros t t' Hs H; cbn [DF.addDirs] in H.
  - inversion H; subst. exact Hs.
  - destruct (eqb dir (lit "root")); [eapply IH; eauto |].
    destruct (DF.addParts (split 47 dir) [] t) as [t1 | e] eqn:E;
      [| discriminate].
    eapply IH; [| exact H]. eapply addParts_shaped; eauto.
Qed.

(** X21. In the tree [buildDirectoryTree] returns every entry has at least
    one child, no child twice, and each child is the entry's key joined
    with one more part; so an entry that is present always has children to
    show. *)
Theorem directory_tree_entries_are_shaped
    (dirs : list jsstring) (t : DF.tree) (key : jsstring)
    (children : list jsstring)
    (Hbuilt : DF.buildDirectoryTree dirs = Returns t)
    (Hentry : DF.lookup key t = Some children) :
  children <> [] /\ NoDup children
  /\ forall child, In child children ->
       exists part, child = DF.joinPath key part.
Proof.
  assert (Hs : DF.shaped t).
  { eapply addDirs_shaped; [| exact Hbuilt]. intros k v Hk. discriminate. }
  destruct (Hs key children Hentry) as [H1 [H2 [_ H3]]]. auto.
Qed.

Lemma split_aux_join (sep : N) (s : jsstring) :
  s = fst (split_aux sep s) ++ List.concat (map (cons sep) (snd (split_aux sep s))).
Proof.
  induction s as [|c s IH]; [reflexivity |].
  cbn [split_aux]. destruct (split_aux sep s) as [t ts]. cbn [fst snd] in *.
  destruct (N.eqb_spec c sep) as [-> | _]; cbn [fst snd map List.concat app].
  - rewrite IH at 1. reflexivity.
  - rewrite IH at 1. reflexivity.
Qed.

Lemma joinPath_parts (parts : list jsstring) : forall cur,
  cur <> [] ->
  fold_left DF.joinPath parts cur = cur ++ List.concat (map (cons 47%N) parts).
Proof.
  induction parts as [|p parts IH]; intros cur Hcur; cbn [fold_left map List.concat].
  - rewrite app_nil_r. reflexivity.
  - assert (E : DF.joinPath cur p = cur ++ 47%N :: p)
      by (destruct cur; [contradiction | reflexivity]).
    rewrite E, IH, <- app_assoc; [reflexivity |].
    destruct cur; [contradiction | discriminate].
Qed.

(** Joining the parts of a path gives the path back, unless it starts with
    a separator. *)
Lemma join_of_split (s : jsstring) :
  hd 0%N s <> 47%N -> fold_left DF.joinPath (split 47 s) [] = s.
Proof.
  intros Hhd. unfold split. pose proof (split_aux_join 47 s) as E.
  destruct (split_aux 47 s) as [t ts]. cbn [fst snd] in E.
  cbn [fold_left DF.joinPath]. destruct t as [|c t].
  - destruct ts as [|t1 ts]; [rewrite E; reflexivity |].
    exfalso. apply Hhd. rewrite E. reflexivity.
  - rewrite joinPath_parts by discriminate. symmetry. exact E.
Qed.

Lemma addDirs_listed dirs : forall t t',
  DF.addDirs dirs t = Returns t' ->
  (forall dir, In dir dirs -> dir <> lit "root" -> hd 0%N dir <> 47%N ->
               DF.listed t' dir)
  /\ forall x, DF.listed t x -> DF.listed t' x.
Proof.
  induction dirs as [|dir dirs IH]; intros t t' H; cbn [DF.addDirs] in H.
  - inversion H; subst. split; [intros d [] | auto].
  - destruct (eqb dir (lit "root")) eqn:Eroot.
    + destruct (IH _ _ H) as [Hdirs Hmono]. split; [| exact Hmono].
      intros d [<- | Hd] Hne Hhd; [| auto].
      apply eqb_eq in Eroot. contradiction.
    + destruct (DF.addParts (split 47 dir) [] t) as [t1 | e] eqn:E;
        [| discriminate].
      destruct (addParts_listed _ _ _ _ E) as [Hlast Hmono1].
      destruct (IH _ _ H) as [Hdirs Hmono]. split; [| auto].
      intros d [<- | Hd] Hne Hhd; [| auto].
      apply Hmono. rewrite <- (join_of_split dir Hhd). apply Hlast.
      unfold split. destruct (split_aux 47 dir). discriminate.
Qed.

(** X22. Every directory of the roster, other than the sentinel [root] and
    paths that start with a separator, is listed as a child in the tree
    [buildDirectoryTree] returns. *)
Theorem directory_tree_lists_every_directory
    (dirs : list jsstring) (t : DF.tree) (dir : jsstring)
    (Hbuilt : DF.buildDirectoryTree dirs = Returns t)
    (Hin : In dir dirs)
    (Hroot : dir <> lit "root")
    (Hhead : hd 0%N dir <> 47%N) :
  DF.listed t dir.
Proof.
  destruct (addDirs_listed dirs [] t Hbuilt) as [H _]. apply H; assumption.
Qed.

Lemma inherited_In (key : jsstring) :
  DF.inherited key = true <-> In key DF.objectPrototypeKeys.
Proof. apply (existsb_eq_In eqb eqb_eq). Qed.

Lemma inherited_no_separator (key : jsstring) :
  DF.inherited key = true -> ~ In 47%N key.
Proof.
  intros H. apply inherited_In in H.
  assert (Hall : forallb (fun k => negb (existsb (N.eqb 47) k))
                   DF.objectPrototypeKeys = true) by reflexivity.
  rewrite forallb_forall in Hall. specialize (Hall key H).
  apply negb_true_iff in Hall. intros Hin.
  assert (existsb (N.eqb 47) key = true); [| congruence].
  apply existsb_exists. exists 47%N. split; [exact Hin | apply N.eqb_refl].
Qed.

Lemma addDirs_app l1 l2 t :
  DF.addDirs (l1 ++ l2) t
  = match DF.addDirs l1 t with
    | Returns t1 => DF.addDirs l2 t1
    | Throws e => Throws e
    end.
Proof.
  revert t. induction l1 as [|d l1 IH]; intros t; [reflexivity |].
  cbn [app DF.addDirs]. destruct (eqb d (lit "root")); [apply IH |].
  destruct (DF.addParts (split 47 d) [] t); [apply IH | reflexivity].
Qed.

(** X23. A directory below a top-level directory named like a property
    every object inherits ([constructor], [toString], [__proto__], ...)
    makes [buildDirectoryTree] throw a [TypeError]: the inherited member is
    found in place of a list of children, and it has no [includes]. *)
Theorem directory_tree_throws_on_inherited_name
    (before after : list jsstring) (key rest : jsstring) (t : DF.tree)
    (Hbefore : DF.buildDirectoryTree before = Returns t)
    (Hkey : In key DF.objectPrototypeKeys) :
  DF.buildDirectoryTree (before ++ (key ++ 47%N :: rest) :: after)
  = Throws TypeError.
Proof.
  unfold DF.buildDirectoryTree in *. rewrite addDirs_app, Hbefore.
  assert (Hs : DF.shaped t).
  { eapply addDirs_shaped; [| exact Hbefore]. intros k v Hk. discriminate. }
  apply inherited_In in Hkey.
  pose proof (inherited_no_separator key Hkey) as Hsep.
  cbn [DF.addDirs].
  assert (Hroot : eqb (key ++ 47%N :: rest) (lit "root") = false).
  { apply eqb_neq. intros E.
    assert (Hin : In 47%N (lit "root"))
      by (rewrite <- E; apply in_or_app; right; left; reflexivity).
    cbn in Hin. intuition discriminate. }
  rewrite Hroot, split_app, (split_no_separator 47 key Hsep).
  assert (Hkne : key <> []) by (intros ->; discriminate).
  unfold split at 1. destruct (split_aux 47 rest) as [r0 rs].
  cbn [app DF.addParts]. change (DF.joinPath [] key) with key.
  pose proof (addChild_cases t [] key) as Hc.
  destruct (DF.addChild t [] key) as [t1 | e] eqn:E1.
  - assert (Hs1 : DF.shaped t1)
      by (apply (addChild_shaped t [] key t1 Hs); exact E1).
    assert (Hnone : DF.lookup key t1 = None).
    { destruct (DF.lookup key t1) as [v |] eqn:Ev; [| reflexivity].
      destruct (Hs1 _ _ Ev) as [_ [_ [Hinh _]]]. congruence. }
    pose proof (addChild_cases t1 key (DF.joinPath key r0)) as Hc1.
    rewrite Hnone, Hkey in Hc1. rewrite Hc1. reflexivity.
  - exfalso. destruct (DF.lookup [] t); [congruence |].
    change (DF.inherited []) with false in Hc. congruence.
Qed.

Lemma joinPath_not_inherited cur part :
  DF.inherited cur = false -> DF.inherited part = false ->
  DF.inherited (DF.joinPath cur part) = false.
Proof.
  intros Hc Hp. destruct cur as [|c cur]; [exact Hp |].
  apply not_true_is_false. intros H.
  apply inherited_no_separator in H. apply H.
  cbn [DF.joinPath]. apply in_or_app. right. left. reflexivity.
Qed.

Lemma addParts_returns parts : forall cur t,
  DF.inherited cur = false ->
  (forall part, In part parts -> DF.inherited part = false) ->
  exists t', DF.addParts parts cur t = Returns t'.
Proof.
  induction parts as [|part parts IH]; intros cur t Hcur Hparts;
    cbn [DF.addParts]; [eauto |].
  pose proof (addChild_cases t cur (DF.joinPath cur part)) as Hc.
  assert (E : exists t1, DF.addChild t cur (DF.joinPath cur part) = Returns t1).
  { destruct (DF.lookup cur t); [eauto |]. rewrite Hcur in Hc. eauto. }
  destruct E as [t1 ->]. apply IH.
  - apply joinPath_not_inherited; [exact Hcur |]. apply Hparts. left; auto.
  - intros p Hp. apply Hparts. right; exact Hp.
Qed.

(** X24. [buildDirectoryTree] returns a tree whenever no segment of any
    directory is named like a property every object inherits. *)
Theorem directory_tree_is_built
    (dirs : list jsstring)
    (Hsafe : forall dir segment,
               In dir dirs -> In segment (split 47 dir) ->
               DF.inherited segment = false) :
  exists t, DF.buildDirectoryTree dirs = Returns t.
Proof.
  unfold DF.buildDirectoryTree. generalize (@nil (jsstring * list jsstring)).
  induction dirs as [|dir dirs IH]; intros t; cbn [DF.addDirs]; [eauto |].
  assert (Hrest : forall d segment,
            In d dirs -> In segment (split 47 d) ->
            DF.inherited segment = false)
    by (intros d sg Hd; apply Hsafe; right; exact Hd).
  destruct (eqb dir (lit "root")); [apply IH, Hrest |].
  destruct (addParts_returns (split 47 dir) [] t eq_refl) as [t1 ->].
  - intros part Hp. apply (Hsafe dir); [left; reflexivity | exact Hp].
  - apply IH, Hrest.
Qed.

(** * Nothing readable is lost *)

Lemma forOf_keeps {A X} (body : X -> eff (list A) unit)
    (l1 l2 : list X) (x : X) (new : list A) :
  (forall s, body x s = (Returns tt, s ++ new)) ->
  grows (fun _ => True) (forOf body l2) ->
  forall s u s',
    forOf body (l1 ++ x :: l2) s = (Returns u, s') -> incl new s'.
Proof.
  intros Hx Hl2 s u s' H. rewrite forOf_app in H.
  destruct (forOf body l1 s) as [[u1 | e] s1]; [| discriminate].
  cbn [forOf] in H. rewrite Hx in H.
  destruct (Hl2 _ _ _ H) as [more [-> _]].
  intros a Ha. apply in_app_iff. left. apply in_app_iff. right. exact Ha.
Qed.

Section Completeness.
Variable toLowerCase : jsstring -> jsstring.
Variable maxDepth : Z.

Abbreviation routeAll := (Route.getAllFilesRecursively toLowerCase maxDepth).
Abbreviation scriptAll := (Script.getAllIconFiles toLowerCase maxDepth).

Lemma route_loop_grows entries relDir d :
  grows (fun _ => True)
    (forOf (Route.visitEntry toLowerCase maxDepth relDir d) entries).
Proof.
  apply grows_forOf, Forall_forall. intros x _.
  apply route_visitEntry_pushes. auto.
Qed.

Lemma script_loop_grows entries relDir d :
  grows (fun _ => True)
    (forOf (Script.visitEntry toLowerCase maxDepth relDir d) entries).
Proof.
  apply grows_forOf, Forall_forall. intros x _.
  apply script_visitEntry_pushes. auto.
Qed.

Lemma loop_appends {A X} (body : X -> eff (list A) unit) (l : list X) :
  Forall (fun x => exists new, forall s, body x s = (Returns tt, s ++ new)) l ->
  exists news, forall s, forOf body l s = (Returns tt, s ++ news).
Proof.
  induction 1 as [|x l [new Hx] _ [news IH]].
  - exists []. intros s. cbn. rewrite app_nil_r. reflexivity.
  - exists (new ++ news). intros s. cbn [forOf].
    rewrite Hx, IH, app_assoc. reflexivity.
Qed.

(** Each turn of the route's loop returns, and appends records that do not
    depend on what the array already holds. *)
Lemma route_visitEntry_appends (entry : dirent) :
  forall relDir d, exists new,
    forall files,
      Route.visitEntry toLowerCase maxDepth relDir d entry files
      = (Returns tt, files ++ new).
Proof.
  induction entry as [n stat | n stat | n e | n entries IH]
    using dirent_tree_ind; intros relDir d.
  - cbn [Route.visitEntry].
    destruct (existsb _ supportedFormats);
      [| exists []; intros; cbn; rewrite app_nil_r; reflexivity].
    destruct stat as [stats | e].
    + exists [Route.fileRecord relDir d n stats]. reflexivity.
    + exists []. intros. cbn. rewrite app_nil_r. reflexivity.
  - exists []. intros. cbn. rewrite app_nil_r. reflexivity.
  - exists []. intros. rewrite app_nil_r.
    apply route_failing_entry_is_inert. reflexivity.
  - cbn [Route.visitEntry].
    destruct (startsWith n (lit ".") || eqb n (lit "node_modules"));
      [exists []; intros; cbn; rewrite app_nil_r; reflexivity |].
    unfold Route.getAllFilesWith. destruct (d + 1 >? maxDepth).
    + exists []. reflexivity.
    + destruct (loop_appends
                  (Route.visitEntry toLowerCase maxDepth
                     (relativeOf relDir n) (d + 1)) entries) as [news Hn].
      { eapply Forall_impl; [| exact IH]. intros x Hx. apply Hx. }
      exists news. intros files.
      unfold Eff.bind, await, returningFiles, tryCatch, push.
      rewrite Hn. reflexivity.
Qed.

Lemma route_listing_keeps (before after : list dirent) (x : dirent)
    relDir d (new files : list IconFile) :
  d <= maxDepth ->
  (forall s, Route.visitEntry toLowerCase maxDepth relDir d x s
             = (Returns tt, s ++ new)) ->
  routeAll (Returns (before ++ x :: after)) relDir d = Returns files ->
  incl new files.
Proof.
  intros Hd Hx H. unfold Route.getAllFilesRecursively, Route.getAllFilesWith in H.
  destruct (Z.gtb_spec d maxDepth) as [Hgt | _]; [lia |].
  unfold returningFiles, tryCatch in H.
  destruct (loop_appends (Route.visitEntry toLowerCase maxDepth relDir d)
              (before ++ x :: after)) as [news Hn].
  { apply Forall_forall. intros y _. apply route_visitEntry_appends. }
  pose proof (Hn []) as E. rewrite E in H. inversion H; subst.
  eapply forOf_keeps; [exact Hx | apply route_loop_grows | exact E].
Qed.

Lemma script_listing_keeps (before after : list dirent) (x : dirent)
    relDir d (new files : list IconFile) :
  d <= maxDepth ->
  (forall s, Script.visitEntry toLowerCase maxDepth relDir d x s
             = (Returns tt, s ++ new)) ->
  scriptAll (Returns (before ++ x :: after)) relDir d = Returns files ->
  incl new files.
Proof.
  intros Hd Hx H.
  unfold Script.getAllIconFiles, Script.getAllIconFilesWith in H.
  destruct (Z.gtb_spec d maxDepth) as [Hgt | _]; [lia |].
  unfold returningFiles in H.
  destruct (forOf _ (before ++ x :: after) []) as [[u | e] s'] eqn:E;
    [| discriminate].
  inversion H; subst.
  eapply forOf_keeps; [exact Hx | apply script_loop_grows | exact E].
Qed.

(** X14. Within the depth limit nothing readable is lost: a returned
    listing contains the record of each of its images whose metadata can be
    read, and all the records returned for each of its directories (for the
    route: each directory it does not skip). *)
Theorem traversals_keep_every_readable_image
    (before after : list dirent) (relDir : jsstring) (d : Z)
    (n : jsstring) (stats : Stats) (listing : outcome (list dirent))
    (files sub : list IconFile)
    (Hdepth : d <= maxDepth) :
  (Walk.supported toLowerCase n = true ->
   routeAll (Returns (before ++ FileEnt n (Returns stats) :: after)) relDir d
     = Returns files ->
   In (Route.fileRecord relDir d n stats) files)
  /\ (skipped n = false ->
      routeAll listing (relativeOf relDir n) (d + 1) = Returns sub ->
      routeAll (Returns (before ++ DirEnt n listing :: after)) relDir d
        = Returns files ->
      incl sub files)
  /\ (Walk.supported toLowerCase n = true ->
      scriptAll (Returns (before ++ FileEnt n (Returns stats) :: after))
        relDir d = Returns files ->
      In (Script.fileRecord (replaceBackslashes (relativeOf relDir n))
            d n stats) files)
  /\ (scriptAll listing (relativeOf relDir n) (d + 1) = Returns sub ->
      scriptAll (Returns (before ++ DirEnt n listing :: after)) relDir d
        = Returns files ->
      incl sub files).
Proof.
  split; [| split; [| split]].
  - intros Hs H.
    apply (route_listing_keeps before after (FileEnt n (Returns stats))
             relDir d [Route.fileRecord relDir d n stats] files Hdepth);
      [| exact H | left; reflexivity].
    intros s. cbn [Route.visitEntry]. unfold Walk.supported in Hs.
    rewrite Hs. reflexivity.
  - intros Hskip Hsub H.
    apply (route_listing_keeps before after (DirEnt n listing)
             relDir d sub files Hdepth);
      [| exact H].
    intros s. cbn [Route.visitEntry]. unfold skipped in Hskip.
    rewrite Hskip. unfold Eff.bind, await.
    unfold Route.getAllFilesRecursively in Hsub. rewrite Hsub. reflexivity.
  - intros Hs H.
    apply (script_listing_keeps before after (FileEnt n (Returns stats))
             relDir d
             [Script.fileRecord (replaceBackslashes (relativeOf relDir n))
                d n stats] files Hdepth);
      [| exact H | left; reflexivity].
    intros s. cbn [Script.visitEntry]. unfold Script.visitFile.
    unfold Walk.supported in Hs. cbv zeta. rewrite Hs. reflexivity.
  - intros Hsub H.
    apply (script_listing_keeps before after (DirEnt n listing)
             relDir d sub files Hdepth);
      [| exact H].
    intros s. cbn [Script.visitEntry]. unfold Eff.bind, await.
    unfold Script.getAllIconFiles in Hsub. rewrite Hsub. reflexivity.
Qed.

End Completeness.

(** * The path the route writes *)



(** * Further runs on concrete inputs *)

Lemma query_returns_every_matching_record_witness :
  Permutation
    (icons (Search.searchFiles asciiLower defaultCompare
              Samples.lambdaRecords (lit "lambda") (Some (lit "compute"))))
    (filter (Search.matchesSearch asciiLower (asciiLower (lit "lambda")))
       (scopedSet Samples.lambdaRecords (givenFilter (Some (lit "compute")))))
  /\ Permutation
       (icons (Search.searchFilesJson asciiLower defaultCompare
                 Samples.lambdaRecords (lit "lambda") (Some (lit "compute"))))
       (filter (Search.matchesSearch asciiLower (asciiLower (lit "lambda")))
          (scopedSet Samples.lambdaRecords
             (givenFilter (Some (lit "compute"))))).
Proof.
  apply (query_returns_every_matching_record asciiLower defaultCompare
           Samples.lambdaRecords (lit "lambda") (Some (lit "compute"))).
  reflexivity.
Defined.

Lemma icons_descend_by_score_witness :
  StronglySorted (scoreOrdered asciiLower (asciiLower (lit "lambda")))
    (icons (Search.searchFiles asciiLower defaultCompare
              Samples.lambdaRecords (lit "lambda") None))
  /\ StronglySorted (scoreOrdered asciiLower (asciiLower (lit "lambda")))
       (icons (Search.searchFilesJson asciiLower defaultCompare
                 Samples.lambdaRecords (lit "lambda") None)).
Proof.
  apply (icons_descend_by_score asciiLower defaultCompare
           Samples.lambdaRecords (lit "lambda") None).
  reflexivity.
Defined.

Lemma tiedRecords_lowered (f g : IconFile) :
  In f Canonical.tiedRecords -> In g Canonical.tiedRecords ->
  Canonical.canonicalCompare (asciiLower (directory f))
    (asciiLower (directory g)) = 0 ->
  asciiLower (directory f) = asciiLower (directory g).
Proof.
  intros Hf Hg.
  destruct Hf as [<- | [<- | [<- | []]]];
    destruct Hg as [<- | [<- | [<- | []]]];
    vm_compute; intros H; try reflexivity; discriminate.
Qed.

(** The three records score alike for [svg], and are returned by
    directory and then by name. *)
Lemma tiedRecords_score_alike :
  Forall (fun f => Search.getRelevanceScore asciiLower (lit "svg") f = 9)
    Canonical.tiedRecords
  /\ icons (Search.searchFiles asciiLower Canonical.canonicalCompare
              Canonical.tiedRecords (lit "svg") None)
     = Canonical.tiedSorted.
Proof. split; [repeat constructor | reflexivity]. Qed.

Lemma icons_ordered_by_score_directory_name_witness :
  blankQuery (lit "svg") = false
  /\ StronglySorted
       (Rank.rankedBefore asciiLower Canonical.canonicalCompare asciiLower
          (asciiLower (lit "svg")))
       (icons (Search.searchFiles asciiLower Canonical.canonicalCompare
                 Canonical.tiedRecords (lit "svg") None))
  /\ StronglySorted
       (Rank.rankedBefore asciiLower Canonical.canonicalCompare (fun s => s)
          (asciiLower (lit "svg")))
       (icons (Search.searchFilesJson asciiLower Canonical.canonicalCompare
                 Canonical.tiedRecords (lit "svg") None)).
Proof.
  split; [reflexivity |].
  apply (icons_ordered_by_score_directory_name asciiLower
           Canonical.canonicalCompare
           canonicalCompare_swap canonicalCompare_trans
           Canonical.tiedRecords (lit "svg") None
           tiedRecords_lowered tiedRecords_directories).
  reflexivity.
Defined.

Lemma icons_come_from_the_scope_witness :
  In (Samples.icon "lambda-function.svg" "compute"
        "compute/lambda-function.svg" 1) Samples.lambdaRecords
  /\ forall d, givenFilter (Some (lit "compute")) = Some d ->
       directory (Samples.icon "lambda-function.svg" "compute"
                    "compute/lambda-function.svg" 1) = d.
Proof.
  apply (icons_come_from_the_scope asciiLower defaultCompare
           Samples.lambdaRecords (lit "lambda") (Some (lit "compute"))).
  left. left. reflexivity.
Defined.


Lemma search_again_keeps_icons_witness :
  icons (Search.searchFiles asciiLower Canonical.canonicalCompare
           (icons (Search.searchFiles asciiLower Canonical.canonicalCompare
                     Canonical.tiedRecords (lit "svg") None))
           (lit "svg") None)
  = icons (Search.searchFiles asciiLower Canonical.canonicalCompare
             Canonical.tiedRecords (lit "svg") None).
Proof.
  apply (search_again_keeps_icons asciiLower Canonical.canonicalCompare
           canonicalCompare_swap canonicalCompare_trans
           Canonical.tiedRecords (lit "svg") None
           tiedRecords_lowered tiedRecords_directories).
Defined.

Lemma route_isolates_failing_entries_witness :
  Walk.failing Cases.unreadableImage = true
  /\ Route.getAllFilesRecursively asciiLower 10
       (Returns (Samples.flatTree ++ Cases.unreadableImage :: Samples.hiddenTree))
       [] 0
     = Route.getAllFilesRecursively asciiLower 10
         (Returns (Samples.flatTree ++ Samples.hiddenTree)) [] 0.
Proof.
  split; [reflexivity |].
  apply (route_isolates_failing_entries asciiLower 10
           Samples.flatTree Samples.hiddenTree Cases.unreadableImage [] 0).
  reflexivity.
Defined.


Lemma records_are_images_with_metadata_witness :
  In (asciiLower (NodePath.extname (name Samples.flatRecord))) supportedFormats
  /\ (exists bytes, size Samples.flatRecord = Some bytes)
  /\ (exists mtime, lastModified Samples.flatRecord = Some mtime).
Proof.
  apply (records_are_images_with_metadata asciiLower 10
           (Returns Samples.flatTree) [] 0 [Samples.flatRecord]
           Samples.flatRecord).
  - left. reflexivity.
  - left. reflexivity.
Defined.

Lemma script_path_is_mount_and_relative_path_witness :
  path Samples.hiddenRecord
  = lit "/icons/" ++ relativePath Samples.hiddenRecord.
Proof.
  apply (script_path_is_mount_and_relative_path asciiLower 10
           (Returns Samples.hiddenTree) [] 0 [Samples.hiddenRecord]
           Samples.hiddenRecord).
  - reflexivity.
  - left. reflexivity.
Defined.

Lemma traversals_agree_on_plain_trees_witness :
  forallb Walk.plainEntry Cases.publicTree = true
  /\ exists files,
       Route.getAllFilesRecursively asciiLower 10
         (Returns Cases.publicTree) [] 0 = Returns files
       /\ Script.getAllIconFiles asciiLower 10
            (Returns Cases.publicTree) [] 0
          = Returns (map Walk.asScript files).
Proof.
  split; [reflexivity |].
  apply (traversals_agree_on_plain_trees asciiLower 10 Cases.publicTree [] 0).
  reflexivity.
Defined.

Lemma root_files_get_different_directories_witness :
  (Route.getAllFilesRecursively asciiLower 10 (Returns Samples.flatTree) [] 0
     = Returns [Samples.flatRecord] ->
   directory Samples.flatRecord = lit "root")
  /\ (Script.getAllIconFiles asciiLower 10 (Returns Samples.flatTree) [] 0
        = Returns [Samples.flatRecord] ->
      directory Samples.flatRecord = lit ".").
Proof.
  apply (root_files_get_different_directories asciiLower 10
           Samples.flatTree [Samples.flatRecord] Samples.flatRecord).
  - reflexivity.
  - left. reflexivity.
  - reflexivity.
Defined.

Lemma formatted_name_capitalizes_words_witness :
  Page.formatFileName (lit "ec2-instance.svg") = lit "Ec2 Instance"
  /\ exists pre' p, lit "E" = pre' ++ [p] /\ Page.isWordChar p = true.
Proof.
  split; [reflexivity |].
  apply (formatted_name_capitalizes_words (lit "ec2-instance.svg")
           (lit "E") (lit "2 Instance") 99%N).
  - reflexivity.
  - lia.
Defined.

Lemma formatted_name_drops_extension_witness :
  Page.stripExtension (lit "ec2-instance" ++ 46%N :: lit "SVG")
    = lit "ec2-instance"
  /\ Page.formatFileName (lit "ec2-instance" ++ 46%N :: lit "SVG")
     = Page.capitalizeWords false (Page.hyphensToSpaces (lit "ec2-instance")).
Proof.
  apply (formatted_name_drops_extension (lit "ec2-instance") (lit "SVG")).
  left. reflexivity.
Defined.

Lemma directory_tree_entries_are_shaped_witness :
  DF.buildDirectoryTree Cases.roster
    = Returns [([], [lit "compute"]);
               (lit "compute", [lit "compute/diagrams"])]
  /\ ([lit "compute/diagrams"] <> [] /\ NoDup [lit "compute/diagrams"]
      /\ forall child, In child [lit "compute/diagrams"] ->
           exists part, child = DF.joinPath (lit "compute") part).
Proof.
  split; [reflexivity |].
  apply (directory_tree_entries_are_shaped Cases.roster
           [([], [lit "compute"]); (lit "compute", [lit "compute/diagrams"])]
           (lit "compute") [lit "compute/diagrams"]).
  - reflexivity.
  - reflexivity.
Defined.

Lemma directory_tree_lists_every_directory_witness :
  DF.listed [([], [lit "compute"]); (lit "compute", [lit "compute/diagrams"])]
    (lit "compute/diagrams").
Proof.
  apply (directory_tree_lists_every_directory Cases.roster
           [([], [lit "compute"]); (lit "compute", [lit "compute/diagrams"])]
           (lit "compute/diagrams")).
  - reflexivity.
  - right. left. reflexivity.
  - discriminate.
  - discriminate.
Defined.

Lemma directory_tree_throws_on_inherited_name_witness :
  DF.buildDirectoryTree
    (Cases.roster ++ (lit "constructor" ++ 47%N :: lit "x") :: [])
  = Throws TypeError.
Proof.
  apply (directory_tree_throws_on_inherited_name Cases.roster []
           (lit "constructor") (lit "x")
           [([], [lit "compute"]); (lit "compute", [lit "compute/diagrams"])]).
  - reflexivity.
  - left. reflexivity.
Defined.

Lemma directory_tree_is_built_witness :
  exists t, DF.buildDirectoryTree Cases.roster = Returns t.
Proof.
  apply (directory_tree_is_built Cases.roster).
  intros dir segment Hdir Hsegment.
  destruct Hdir as [<- | [<- | [<- | []]]];
    vm_compute in Hsegment;
    repeat (destruct Hsegment as [<- | Hsegment]; [reflexivity |]);
    contradiction.
Defined.

Lemma traversals_keep_every_readable_image_witness :
  Walk.supported asciiLower (lit "a.svg") = true
  /\ In (Route.fileRecord [] 0 (lit "a.svg") (mkStats 512 1700000000))
       [Samples.flatRecord].
Proof.
  split; [reflexivity |].
  assert (Hdepth : 0 <= 10) by lia.
  destruct (traversals_keep_every_readable_image asciiLower 10 [] [] [] 0
              (lit "a.svg") (mkStats 512 1700000000) (Returns [])
              [Samples.flatRecord] [] Hdepth) as [Hroute _].
  apply Hroute; reflexivity.
Defined.


Lemma route_skips_hidden_directories_witness :
  skipped (lit "compute") = false.
Proof.
  apply (route_skips_hidden_directories asciiLower 10 Samples.mixedTree
           [Samples.flatRecord;
            mkIconFile (lit "l.SVG") (lit "compute/l.SVG")
              (lit "compute/l.SVG") (lit "compute")
              (Some 512) (Some 1700000000) 1]
           (mkIconFile (lit "l.SVG") (lit "compute/l.SVG")
              (lit "compute/l.SVG") (lit "compute")
              (Some 512) (Some 1700000000) 1)
           (lit "compute")).
  - reflexivity.
  - reflexivity.
  - right. left. reflexivity.
  - left. reflexivity.
Defined.

Lemma depth_within_bounds_witness :
  0 <= depth (mkIconFile (lit "l.SVG") (lit "compute/l.SVG")
                (lit "compute/l.SVG") (lit "compute")
                (Some 512) (Some 1700000000) 1) <= 10.
Proof.
  apply (depth_within_bounds asciiLower 10 Samples.mixedTree
           [Samples.flatRecord;
            mkIconFile (lit "l.SVG") (lit "compute/l.SVG")
              (lit "compute/l.SVG") (lit "compute")
              (Some 512) (Some 1700000000) 1]).
  - reflexivity.
  - left. reflexivity.
  - right. left. reflexivity.
Defined.
